(** * aalr: robust spline smoothing by iterative re-weighting

    A shallow embedding of the Python package [aalr] (modules [util],
    [spline_model] and [aggregate]) together with the properties of its
    run-length scanner, its refinement loop, its knot pruning and its
    knot-shift ensemble.

    Conventions of the embedding.
    - A NumPy one-dimensional array is a [list]; every array operation the
      package uses is elementwise and allocates a fresh array, except the
      in-place product [w *= m.w] of [knot_shift_aggregate], which acts on a
      private copy.  No array is mutated while it is shared, so arrays are
      values here.
    - Python integers are [Z]; indices produced by [enumerate] are [nat].
    - Floating-point numbers are the elements of a carrier with the
      operations of the class [FloatOps]; the general properties hold for
      every carrier and every choice of the operations.  The instance
      [binary64] is Rocq's primitive IEEE-754 binary64, the arithmetic that
      Python and NumPy compute with; the instance [rational] is exact
      arithmetic, the same formulas without rounding.
    - A raised exception is the [Err] branch of [result]; nothing in the
      package catches exceptions.
    - The least-squares kernel [scipy.interpolate.LSQUnivariateSpline] and
      [numpy.nanmedian] are parameters of the model, the class [Kernel];
      the general properties hold for every kernel.
    - [inlier_predicate] is the default method of the class, with its
      default bounds.
    - A method is a function of [self] that returns its result, the new
      [self] and the log of the calls it made, or raises. *)

From Stdlib Require Import ZArith List Bool Lia String Floats QArith Qabs Lqa.
From Stdlib Require Import Sorting.Sorted.
From stdpp Require Import gmap strings list.
Import ListNotations.

#[local] Open Scope Z_scope.

(** ** Python runtime: exceptions and sequences *)

Module Py.

Inductive exn : Type :=
| AssertionError
| ZeroDivisionError
| ValueError
| IndexError
| UnboundLocalError
| AttributeError
| KernelError (code : Z).

Inductive result (A : Type) : Type :=
| Ok (a : A)
| Err (e : exn).
Arguments Ok {A} a.
Arguments Err {A} e.

Definition bind {A B} (m : result A) (f : A -> result B) : result B :=
  match m with
  | Ok a => f a
  | Err e => Err e
  end.

(** [assert c] *)
Definition assert (c : bool) : result unit :=
  if c then Ok tt else Err AssertionError.

(** [l[i]] for an integer [i]: negative indices count from the end, an index
    out of range raises [IndexError]. *)
Definition getitem {A} (l : list A) (i : Z) : result A :=
  let n := Z.of_nat (length l) in
  let j := if i <? 0 then i + n else i in
  if (j <? 0) || (n <=? j) then Err IndexError
  else match nth_error l (Z.to_nat j) with
       | Some a => Ok a
       | None => Err IndexError
       end.

(** The elements of [l] at positions [start], [start + step], ... for a
    positive [step], given as its predecessor [gap]. *)
Fixpoint take_every {A} (gap : nat) (skip : nat) (l : list A) : list A :=
  match l with
  | [] => []
  | a :: l' =>
      match skip with
      | O => a :: take_every gap gap l'
      | S k => take_every gap k l'
      end
  end.

(** [l[start::step]] for [start >= 0]: a zero step raises [ValueError]; a
    positive step walks upwards from [start]; a negative step walks downwards
    from [min(start, len(l) - 1)] to the front. *)
Definition slice_from_step {A} (l : list A) (start step : Z) : result (list A) :=
  if step =? 0 then Err ValueError
  else if 0 <? step then
    Ok (take_every (Z.to_nat (step - 1)) (Z.to_nat start) l)
  else
    let n := Z.of_nat (length l) in
    let first := Z.min start (n - 1) in
    Ok (take_every (Z.to_nat (- step - 1)) 0 (rev (firstn (Z.to_nat (first + 1)) l))).

(** [enumerate(l)] *)
Fixpoint enumerate_from {A} (k : nat) (l : list A) : list (nat * A) :=
  match l with
  | [] => []
  | a :: l' => (k, a) :: enumerate_from (S k) l'
  end.

Definition enumerate {A} (l : list A) : list (nat * A) := enumerate_from 0 l.

End Py.

Export Py.

#[export] Instance result_ret : MRet Py.result := @Py.Ok.
#[export] Instance result_bind : MBind Py.result :=
  fun A B f m => Py.bind m f.

(** ** util.py *)

Module Util.

(** The two states of the scanner of [mask_index]. *)
Inductive scan_state : Type :=
| want_0
| want_1.

(** The local variables [res], [thisres] and [state] of [mask_index]. *)
Record scanner : Type := Scanner {
  res : list (list nat);
  thisres : list nat;
  state : scan_state
}.

(** One turn of the [for i, w in stream] loop of [mask_index]. *)
Definition mask_index_step (sc : scanner) (iw : nat * bool) : scanner :=
  let '(i, w) := iw in
  match w, state sc with
  | true, want_0 => sc
  | true, want_1 =>
      let thisres' := thisres sc ++ [i] in
      Scanner (res sc ++ [thisres']) [] want_0
  | false, want_0 =>
      Scanner (res sc) (thisres sc ++ [i]) want_1
  | false, want_1 => sc
  end.

(** [mask_index(warray)], on the array already converted to [bool]
    ([np.asarray(..., dtype=bool)]); the sentinel [1] converts to [True]. *)
Definition mask_index (warray : list bool) : list (list nat) :=
  let stream := enumerate (warray ++ [true]) in
  res (fold_left mask_index_step stream (Scanner [] [] want_0)).

(** [dist(x, y)]: [np.sum(x ^ y)] on boolean arrays of one shape. *)
Fixpoint dist (x y : list bool) : Z :=
  match x, y with
  | a :: x', b :: y' => (if xorb a b then 1 else 0) + dist x' y'
  | _, _ => 0
  end.

(** *** Vocabulary for the contract of the scanner *)

(** Reading position [i] of a mask; a position past the end reads as the
    sentinel [true]. *)
Definition at_pos (l : list bool) (i : nat) : bool := nth i l true.

(** [s, e) is a maximal run of [false] in [l]. *)
Definition maximal_run (l : list bool) (s e : nat) : Prop :=
  (s < e <= length l)%nat /\
  (forall i, (s <= i < e)%nat -> at_pos l i = false) /\
  (s = O \/ at_pos l (s - 1) = true) /\
  (e = length l \/ at_pos l e = true).

(** The intervals are two-element lists [s; e] with [s < e], listed by
    increasing start, each starting strictly after the end of the one
    before it (and not before [b]). *)
Fixpoint ascending_disjoint (b : nat) (ivs : list (list nat)) : Prop :=
  match ivs with
  | [] => True
  | x :: ivs' =>
      exists s e, x = [s; e] /\ (b <= s)%nat /\ (s < e)%nat /\
                  ascending_disjoint (S e) ivs'
  end.

(** Position [i] lies in the interval [x]. *)
Definition covers (i : nat) (x : list nat) : bool :=
  match x with
  | [s; e] => (s <=? i)%nat && (i <? e)%nat
  | _ => false
  end.

(** The mask of length [n] that is [false] exactly on the intervals. *)
Definition decode (n : nat) (ivs : list (list nat)) : list bool :=
  map (fun i => negb (existsb (covers i) ivs)) (seq 0 n).

(** The scanner in recursive form: [open] is the start of the run being
    scanned, if any. *)
Fixpoint runs (k : nat) (open : option nat) (stream : list bool) : list (list nat) :=
  match stream with
  | [] => []
  | true :: rest =>
      match open with
      | None => runs (S k) None rest
      | Some s => [s; k] :: runs (S k) None rest
      end
  | false :: rest =>
      match open with
      | None => runs (S k) (Some k) rest
      | Some s => runs (S k) (Some s) rest
      end
  end.

Definition scanner_of (acc : list (list nat)) (open : option nat) : scanner :=
  match open with
  | None => Scanner acc [] want_0
  | Some s => Scanner acc [s] want_1
  end.

End Util.

Export Util.

(** ** NumPy numbers *)

(** The operations on binary64 numbers that the package uses. *)
Class FloatOps (F : Type) : Type := {
  fadd : F -> F -> F;
  fsub : F -> F -> F;
  fmul : F -> F -> F;
  fdiv : F -> F -> F;
  fabs : F -> F;
  (** [x <= y] and [x < y] *)
  fle : F -> F -> bool;
  flt : F -> F -> bool;
  (** conversion of a Python integer, [float(i)] *)
  of_int : Z -> F;
  (** conversion to [bool]: [x != 0] *)
  truthy : F -> bool
}.

(** Values of keyword arguments. *)
Inductive pyval : Type :=
| PyNone
| PyBool (b : bool)
| PyInt (z : Z)
| PyStr (s : string).

(** The two library routines the package calls: [numpy.nanmedian] and the
    constructor of [scipy.interpolate.LSQUnivariateSpline], called as
    [LSQUnivariateSpline(t, y, knots, w, **kwargs)].  A fitted spline is
    used only through its evaluation at points. *)
Class Kernel (F : Type) : Type := {
  nanmedian : list F -> F;
  LSQUnivariateSpline :
    list F -> list F -> list F -> list F -> gmap string pyval -> result (F -> F)
}.

Section Arrays.
Context {F : Type} `{FloatOps F}.

(** [np.asarray(a, dtype=bool)] on a float array *)
Definition asarray_bool (a : list F) : list bool := map truthy a.

(** [np.asarray(a, dtype=float)] on a boolean array *)
Definition asarray_float (a : list bool) : list F :=
  map (fun b : bool => if b then of_int 1 else of_int 0) a.

(** [np.ones(n, dtype=float)] *)
Definition ones (n : nat) : list F := repeat (of_int 1) n.

(** An elementwise binary operation on two arrays of one shape; arrays of
    different lengths do not broadcast. *)
Fixpoint elementwise {A B C} (f : A -> B -> C) (a : list A) (b : list B)
  : result (list C) :=
  match a, b with
  | [], [] => Ok []
  | x :: a', y :: b' => r ← elementwise f a' b'; Ok (f x y :: r)
  | _, _ => Err ValueError
  end.

(** Boolean-mask indexing [a[bm]]. *)
Fixpoint select {A} (a : list A) (bm : list bool) : result (list A) :=
  match a, bm with
  | [], [] => Ok []
  | x :: a', b :: bm' =>
      r ← select a' bm'; Ok (if b then x :: r else r)
  | _, _ => Err IndexError
  end.

(** [range(lo, hi)] *)
Definition range (lo hi : Z) : list Z :=
  map (fun k => lo + Z.of_nat k) (seq 0 (Z.to_nat (hi - lo))).
End Arrays.

(** ** spline_model.py *)

Module SplineModel.
Section Model.
Context {F : Type} `{FloatOps F} `{Kernel F}.

(** The attributes of an instance of [SplineModel]. *)
Record SplineModel : Type := Build {
  t : list F;
  y : list F;
  knots : list F;
  w : list F;
  _kwargs_save : gmap string pyval;
  _spr : F -> F;
  self_pred : list F;
  _stats_dirty : bool;
  (** [rmad] is unset until the first classification *)
  rmad : option F
}.

(** The value [refine] returns. *)
Record FitResult : Type := MkFitResult {
  status : Z;
  message : string;
  niter : Z;
  dfinal : Z
}.

(** Calls that the properties count. *)
Inductive event : Type :=
| Classified   (* a call of [inlier_predicate] *)
| Fitted.      (* a call of the least-squares kernel *)

(** A method: it reads and updates [self], may raise, and leaves a log of
    the calls it made. *)
Definition method (A : Type) : Type :=
  SplineModel -> result (A * SplineModel * list event).

#[export] Instance method_ret : MRet method :=
  fun A a self => Ok (a, self, []).
#[export] Instance method_bind : MBind method :=
  fun A B f m self =>
    match m self with
    | Err e => Err e
    | Ok (a, self', log1) =>
        match f a self' with
        | Err e => Err e
        | Ok (b, self'', log2) => Ok (b, self'', log1 ++ log2)
        end
    end.

Definition get : method SplineModel := fun self => Ok (self, self, []).
Definition put (self' : SplineModel) : method unit := fun _ => Ok (tt, self', []).
Definition emit (e : event) : method unit := fun self => Ok (tt, self, [e]).
Definition lift {A} (r : result A) : method A :=
  fun self => match r with Ok a => Ok (a, self, []) | Err e => Err e end.

(** [__call__]: [self._spr(t)], vectorised. *)
Definition call (self : SplineModel) (tq : list F) : list F :=
  map (_spr self) tq.

(** [replace_mask(self, w)] *)
Definition replace_mask (w' : list F) : method unit :=
  self ← get;
  _ ← lift (assert (length w' =? length (t self))%nat);
  spr ← lift (LSQUnivariateSpline (t self) (y self) (knots self) w'
                (_kwargs_save self));
  _ ← emit Fitted;
  put {| t := t self; y := y self; knots := knots self;
         w := w';
         _kwargs_save := _kwargs_save self;
         _spr := spr;
         self_pred := map spr (t self);
         _stats_dirty := true;
         rmad := rmad self |}.

(** The dictionary [kwargs] of [__init__]. *)
Definition init_kwargs (spline_args : gmap string pyval) : gmap string pyval :=
  <["k"%string := PyInt 3]> (spline_args ∪ {["ext"%string := PyStr "const"]}).

(** [a // b] on Python integers *)
Definition floordiv (a b : Z) : result Z :=
  if b =? 0 then Err ZeroDivisionError else Ok (a / b).

(** [__init__(self, t, y, nknots, knots_override, w, **spline_args)].  The
    instance is handed to [replace_mask] with [t], [y], [knots] and
    [_kwargs_save] set; the remaining attributes are set there. *)
Definition init (t0 y0 : list F) (nknots : Z) (knots_override : option (list F))
    (w0 : option (list F)) (spline_args : gmap string pyval)
  : result SplineModel :=
  _ ← assert (length t0 =? length y0)%nat;
  let kwargs := init_kwargs spline_args in
  N ← floordiv (Z.of_nat (length y0)) nknots;
  knots0 ← match knots_override with
            | None => slice_from_step t0 (Z.max (N / 2) 1) N
            | Some ko => Ok ko
            end;
  let winit := match w0 with
               | None => ones (length t0)
               | Some w1 => w1
               end in
  r ← replace_mask winit
        {| t := t0; y := y0; knots := knots0; w := [];
           _kwargs_save := kwargs; _spr := fun x => x; self_pred := [];
           _stats_dirty := true; rmad := None |};
  Ok (snd (fst r)).

(** [inlier_predicate(self, t, y, ub, lb)] *)
Definition inlier_predicate (tq yq : list F) (ub lb : Z) : method (list bool) :=
  self ← get;
  _ ← (if _stats_dirty self then
         let bm := asarray_bool (w self) in
         ysel ← lift (select (y self) bm);
         psel ← lift (select (self_pred self) bm);
         residuals ← lift (elementwise fsub ysel psel);
         put {| t := t self; y := y self; knots := knots self; w := w self;
                _kwargs_save := _kwargs_save self; _spr := _spr self;
                self_pred := self_pred self;
                _stats_dirty := false;
                rmad := Some (nanmedian (map fabs residuals)) |}
       else mret tt);
  self ← get;
  _ ← emit Classified;
  let preds := call self tq in
  diffs ← lift (elementwise fsub yq preds);
  r ← lift (match rmad self with Some r => Ok r | None => Err AttributeError end);
  let deviations := map (fun x => fdiv x r) diffs in
  mret (map (fun x => fle (of_int lb) x && fle x (of_int ub)) deviations).

(** The [while niter <= maxiter] loop of [refine]; [remaining] counts the
    values of [niter] that still pass the test, [maxiter + 1 - niter], and
    the branch [O] is the [else] clause of the loop. *)
Fixpoint refine_loop (target_d : Z) (remaining : nat) (niter0 : Z) (dxor0 : option Z)
  : method FitResult :=
  match remaining with
  | O =>
      dxor ← lift (match dxor0 with
                    | Some d => Ok d
                    | None => Err UnboundLocalError
                    end);
      mret (MkFitResult 1 "Maximum iteration limit exceeded" niter0 dxor)
  | S remaining' =>
      self ← get;
      w_post_pred ← inlier_predicate (t self) (y self) 4 (-10);
      self ← get;
      let dxor := dist w_post_pred (asarray_bool (w self)) in
      if dxor <=? target_d then
        mret (MkFitResult 0 "Converged" niter0 dxor)
      else
        _ ← replace_mask (asarray_float w_post_pred);
        refine_loop target_d remaining' (niter0 + 1) (Some dxor)
  end.

(** [refine(self, target_d, maxiter)] *)
Definition refine (target_d maxiter : Z) : method FitResult :=
  _ ← lift (assert (0 <=? target_d));
  _ ← lift (assert (0 <? maxiter));
  refine_loop target_d (Z.to_nat (maxiter + 1)) 0 None.

(** The inner loop of [cure_knots]: the final value of [skip]. *)
Fixpoint knot_skip (self : SplineModel) (knot : F) (midx : list (list nat))
  : result bool :=
  match midx with
  | [] => Ok false
  | [mi_lo; mi_hi] :: midx' =>
      mloc_lo ← getitem (t self) (Z.of_nat mi_lo);
      mloc_hi ← getitem (t self) (Z.of_nat mi_hi - 1);
      if flt mloc_lo knot && flt knot mloc_hi then Ok true
      else knot_skip self knot midx'
  | _ :: _ => Err ValueError
  end.

(** The outer loop of [cure_knots]: the final value of [kt_new]. *)
Fixpoint cure_loop (self : SplineModel) (midx : list (list nat))
    (kts : list F) (kt_new : list F) : result (list F) :=
  match kts with
  | [] => Ok kt_new
  | knot :: kts' =>
      skip ← knot_skip self knot midx;
      cure_loop self midx kts' (if (skip : bool) then kt_new else kt_new ++ [knot])
  end.

(** [cure_knots(self)]: the new instance. *)
Definition cure_knots : method SplineModel :=
  self ← get;
  let midx := mask_index (asarray_bool (w self)) in
  kt_new ← lift (cure_loop self midx (knots self) []);
  lift (init (t self) (y self) 23 (Some kt_new) (Some (w self))
             (_kwargs_save self)).

End Model.

Arguments SplineModel F : clear implicits.
Arguments method F A : clear implicits.

End SplineModel.

Export SplineModel.

(** ** aggregate.py *)

Module Aggregate.
Section Aggregate.
Context {F : Type} `{FloatOps F} `{Kernel F}.

(** The keyword arguments [**refine_args] forwarded to [refine]. *)
Record refine_args : Type := RefineArgs {
  arg_target_d : option Z;
  arg_maxiter : option Z
}.

(** [m.refine] called with [refine_args] *)
Definition refine_with (args : refine_args) : method F FitResult :=
  refine (default 1 (arg_target_d args)) (default 50 (arg_maxiter args)).

(** [model.knots + i * scale] *)
Definition shifted_knots (model : SplineModel F) (i : Z) (scale : F) : list F :=
  map (fun knot => fadd knot (fmul (of_int i) scale)) (knots model).

(** [SplineModel(model.t, model.y, knots_override=model.knots + i * scale,
    **model._kwargs_save)] *)
Definition shifted_init (model : SplineModel F) (i : Z) (scale : F)
  : result (SplineModel F) :=
  init (t model) (y model) 23 (Some (shifted_knots model i scale)) None
       (_kwargs_save model).

(** One turn of either [for i in range(...)] loop: the refined member. *)
Definition shifted_model (model : SplineModel F) (args : refine_args)
    (i : Z) (scale : F) : result (SplineModel F) :=
  this_model ← shifted_init model i scale;
  r ← refine_with args this_model;
  Ok (snd (fst r)).

(** A [for i in range(...)] loop appending to [shifted_models]. *)
Fixpoint shifted_loop (model : SplineModel F) (args : refine_args) (scale : F)
    (indices : list Z) (shifted_models : list (SplineModel F))
  : result (list (SplineModel F)) :=
  match indices with
  | [] => Ok shifted_models
  | i :: indices' =>
      this_model ← shifted_model model args i scale;
      shifted_loop model args scale indices' (shifted_models ++ [this_model])
  end.

(** [for m in shifted_models: w *= m.w] *)
Fixpoint consensus (w0 : list F) (shifted_models : list (SplineModel F))
  : result (list F) :=
  match shifted_models with
  | [] => Ok w0
  | m :: rest =>
      w1 ← elementwise fmul w0 (w m);
      consensus w1 rest
  end.

(** The lines that derive [scale_left] and [scale_right] from [d] and
    [p]. *)
Definition shift_scales (model : SplineModel F) (d : Z) (p : F)
  : result (F * F) :=
  let q := fdiv (fsub (of_int 1) p) (of_int d) in
  knot_first ← getitem (knots model) 0;
  t_first ← getitem (t model) 0;
  let scale_left := fmul (fsub knot_first t_first) q in
  t_last ← getitem (t model) (-1);
  knot_last ← getitem (knots model) (-1);
  let scale_right := fmul (fsub t_last knot_last) q in
  Ok (scale_left, scale_right).

(** [knot_shift_aggregate(model, duplicates, proximity_factor,
    **refine_args)] *)
Definition knot_shift_aggregate (model : SplineModel F) (duplicates : Z)
    (proximity_factor : F) (args : refine_args) : result (SplineModel F) :=
  let d := duplicates in
  _ ← assert (0 <? d);
  let p := proximity_factor in
  _ ← assert (flt (of_int 0) p && flt p (of_int 1));
  scales ← shift_scales model d p;
  let scale_left := fst scales in
  let scale_right := snd scales in
  shifted_models ← shifted_loop model args scale_left (range (- d) 0) [];
  shifted_models ← shifted_loop model args scale_right (range 1 (d + 1))
                     shifted_models;
  w1 ← consensus (w model) shifted_models;
  model_new ← init (t model) (y model) 23 None (Some w1) (_kwargs_save model);
  cured ← cure_knots model_new;
  let model_agg := fst (fst cured) in
  r ← refine_with args model_agg;
  Ok (snd (fst r)).

(** The [2 * d] knot sets of the members, in the order of the two loops. *)
Definition shifted_knot_sets (model : SplineModel F) (d : Z) (p : F)
  : result (list (list F)) :=
  scales ← shift_scales model d p;
  Ok (map (fun i => shifted_knots model i (fst scales)) (range (- d) 0) ++
      map (fun i => shifted_knots model i (snd scales)) (range 1 (d + 1))).

End Aggregate.
End Aggregate.

Export Aggregate.

(** ** Vocabulary for the properties of [refine] *)

Module Iteration.
Section Iteration.
Context {F : Type} `{FloatOps F} `{Kernel F}.

(** The classification that opens an iteration of [refine]:
    [self.inlier_predicate(self.t, self.y)]. *)
Definition classify (self : SplineModel F)
  : result (list bool * SplineModel F * list event) :=
  inlier_predicate (t self) (y self) 4 (-10) self.

(** The distance [dxor] that an iteration started in [self] compares with
    [target_d]. *)
Definition candidate_distance (self : SplineModel F) : result Z :=
  r ← classify self;
  Ok (dist (fst (fst r)) (asarray_bool (w (snd (fst r))))).

(** An iteration whose test fails: the candidate is committed. *)
Definition commit (self : SplineModel F) : result (SplineModel F) :=
  r ← classify self;
  r' ← replace_mask (asarray_float (fst (fst r))) (snd (fst r));
  Ok (snd (fst r')).

(** The instance at the start of iteration [k], when no earlier iteration
    converged. *)
Fixpoint advance (k : nat) (self : SplineModel F) : result (SplineModel F) :=
  match k with
  | O => Ok self
  | S k' => self' ← commit self; advance k' self'
  end.

(** The test [dxor <= target_d] fails in each of the iterations
    [0 .. k-1] started from [self]. *)
Definition all_exceed (td : Z) (k : nat) (self : SplineModel F) : Prop :=
  forall j : nat, (j < k)%nat ->
    exists (sj : SplineModel F) (dj : Z),
      advance j self = Ok sj /\ candidate_distance sj = Ok dj /\ td < dj.

(** The number of calls of one kind in a log. *)
Fixpoint calls (e : event) (log : list event) : Z :=
  match log with
  | [] => 0
  | e' :: log' =>
      (match e, e' with
       | Classified, Classified | Fitted, Fitted => 1
       | _, _ => 0
       end) + calls e log'
  end.

(** Two instances that differ at most in the cached residual statistic
    ([rmad] and its flag [_stats_dirty]). *)
Definition same_fit (a b : SplineModel F) : Prop :=
  t a = t b /\ y a = y b /\ knots a = knots b /\ w a = w b /\
  _kwargs_save a = _kwargs_save b /\ _spr a = _spr b /\
  self_pred a = self_pred b.

(** Two instances on the same series, knots and fit configuration. *)
Definition same_series (a b : SplineModel F) : Prop :=
  t a = t b /\ y a = y b /\ knots a = knots b /\
  _kwargs_save a = _kwargs_save b.

End Iteration.
End Iteration.

Export Iteration.

(** ** Vocabulary for the properties of [cure_knots] *)

Module Pruning.
Section Pruning.
Context {F : Type} `{FloatOps F}.

(** [knot] lies strictly inside the open span between the first and the
    last sample of the run [s, e): [t[s] < knot < t[e - 1]]. *)
Definition strictly_inside (self : SplineModel F) (knot : F) (s e : nat) : Prop :=
  exists lo hi : F,
    nth_error (t self) s = Some lo /\
    nth_error (t self) (e - 1) = Some hi /\
    flt lo knot = true /\ flt knot hi = true.

(** The same test on an interval of [mask_index], as a boolean. *)
Definition inside_interval (self : SplineModel F) (knot : F) (x : list nat) : bool :=
  match x with
  | [s; e] =>
      match nth_error (t self) s, nth_error (t self) (e - 1) with
      | Some lo, Some hi => flt lo knot && flt knot hi
      | _, _ => false
      end
  | _ => false
  end.

(** [knot] is inside the span of no outlier run of the current mask. *)
Definition kept (self : SplineModel F) (knot : F) : bool :=
  negb (existsb (inside_interval self knot)
          (mask_index (asarray_bool (w self)))).

(** An interval [s; e] with [s < e <= n]: both [s] and [e - 1] index an
    array of length [n]. *)
Definition in_range (n : nat) (x : list nat) : Prop :=
  exists s e : nat, x = [s; e] /\ (s < e <= n)%nat.

End Pruning.
End Pruning.

Export Pruning.

(** ** Vocabulary for the invariants of an instance *)

Module Invariant.
Section Invariant.
Context {F : Type} `{FloatOps F} `{Kernel F}.

(** What [__init__] and [replace_mask] establish and every method keeps:
    [y] and the mask are as long as [t], [self_pred] is the fitted spline
    on [t], a clean statistic cache holds a statistic, and the saved
    configuration fixes [k = 3] and has an [ext]. *)
Definition well_formed (self : SplineModel F) : Prop :=
  length (y self) = length (t self) /\
  length (w self) = length (t self) /\
  self_pred self = map (_spr self) (t self) /\
  (_stats_dirty self = false -> rmad self <> None) /\
  _kwargs_save self !! "k"%string = Some (PyInt 3) /\
  _kwargs_save self !! "ext"%string <> None.

(** A mask whose weights are all [1.0] or [0.0]. *)
Definition boolean_mask (a : list F) : Prop :=
  Forall (fun x => x = of_int 1 \/ x = of_int 0) a.

(** The kernel raises [e] on the series, knots and configuration of
    [self], for some mask. *)
Definition kernel_raises (e : exn) (self : SplineModel F) : Prop :=
  exists w' : list F,
    LSQUnivariateSpline (t self) (y self) (knots self) w' (_kwargs_save self)
    = Err e.

(** What [refine] leaves behind when it returns, started from [self]. *)
Definition refined_from (self : SplineModel F) (res : FitResult)
    (self' : SplineModel F) (log : list event) : Prop :=
  well_formed self' /\ same_series self self' /\
  0 <= niter res /\
  calls Fitted log = niter res /\
  (niter res = 0 -> w self' = w self) /\
  (0 < niter res -> boolean_mask (w self')).

(** The four products of the weights 0 and 1 are exact, and the
    conversion to [bool] tells them apart. *)
Definition boolean_arithmetic : Prop :=
  fmul (of_int 1) (of_int 1) = of_int 1 /\
  fmul (of_int 1) (of_int 0) = of_int 0 /\
  fmul (of_int 0) (of_int 1) = of_int 0 /\
  fmul (of_int 0) (of_int 0) = of_int 0 /\
  truthy (of_int 1) = true /\ truthy (of_int 0) = false.

(** The statistic that [inlier_predicate] computes on a dirty cache: the
    median absolute residual over the current inliers. *)
Definition current_statistic (self : SplineModel F) : result F :=
  let bm := asarray_bool (w self) in
  ysel ← select (y self) bm;
  psel ← select (self_pred self) bm;
  residuals ← elementwise fsub ysel psel;
  Ok (nanmedian (map fabs residuals)).

(** A clean cache holds the statistic of the current mask and fit. *)
Definition cache_coherent (self : SplineModel F) : Prop :=
  _stats_dirty self = false ->
  exists r : F, current_statistic self = Ok r /\ rmad self = Some r.

End Invariant.
End Invariant.

Export Invariant.

(** ** Instances of the arithmetic *)

(** IEEE-754 binary64, round to nearest even: the arithmetic of Python's
    [float] and of NumPy's [float64]. *)
Module Binary64.

(** [float(z)], correctly rounded. *)
Definition of_Z (z : Z) : float :=
  SF2Prim (binary_normalize 53 1024 z 0 false).

#[export] Instance binary64 : FloatOps float := {|
  fadd := PrimFloat.add;
  fsub := PrimFloat.sub;
  fmul := PrimFloat.mul;
  fdiv := PrimFloat.div;
  fabs := PrimFloat.abs;
  fle := PrimFloat.leb;
  flt := PrimFloat.ltb;
  of_int := of_Z;
  truthy := fun x => negb (PrimFloat.eqb x 0)
|}.

(** Insertion into an ascending list. *)
Fixpoint insert_sorted (x : float) (l : list float) : list float :=
  match l with
  | [] => [x]
  | a :: l' => if PrimFloat.leb x a then x :: l else a :: insert_sorted x l'
  end.

(** [numpy.nanmedian] of a one-dimensional array: NaNs are dropped, the
    median of nothing is NaN, the median of an even number of values is
    the mean of the two middle ones. *)
Definition median (a : list float) : float :=
  let vals := List.filter (fun x => negb (PrimFloat.is_nan x)) a in
  let sorted := fold_right insert_sorted [] vals in
  let n := length sorted in
  if (n =? 0)%nat then nan
  else if Nat.even n then
    PrimFloat.div (PrimFloat.add (nth (n / 2 - 1) sorted nan) (nth (n / 2) sorted nan)) 2
  else nth (n / 2) sorted nan.

(** [b] holds of every pair of neighbours of [l]. *)
Fixpoint chain (b : float -> float -> bool) (l : list float) : bool :=
  match l with
  | x :: ((y :: _) as l') => b x y && chain b l'
  | _ => true
  end.

(** A least-squares kernel of degree zero, standing in for SciPy's cubic
    one in the concrete runs below: like SciPy it refuses interior knots
    that are not ascending or not strictly inside the domain, and it
    returns the constant that minimises the weighted squared residuals,
    the weighted mean. *)
Definition constant_fit (t y knots w : list float) (kwargs : gmap string pyval)
  : result (float -> float) :=
  match t with
  | [] => Err (KernelError 1)
  | t_first :: _ =>
      let t_last := List.last t t_first in
      if chain PrimFloat.leb knots
         && forallb (fun k => PrimFloat.ltb t_first k && PrimFloat.ltb k t_last) knots
      then
        let sw := fold_right PrimFloat.add 0%float w in
        let swy := fold_right PrimFloat.add 0%float (map (fun p => PrimFloat.mul (fst p) (snd p)) (combine w y)) in
        let c := PrimFloat.div swy sw in
        Ok (fun _ => c)
      else Err (KernelError 2)
  end.

#[export] Instance constant_kernel : Kernel float := {|
  nanmedian := median;
  LSQUnivariateSpline := constant_fit
|}.

End Binary64.

(** Exact rational arithmetic: what the formulas compute when no operation
    rounds. *)
Module Exact.

#[export] Instance rational : FloatOps Q := {|
  fadd := Qplus;
  fsub := Qminus;
  fmul := Qmult;
  fdiv := Qdiv;
  fabs := Qabs;
  fle := Qle_bool;
  flt := fun a b => negb (Qle_bool b a);
  of_int := inject_Z;
  truthy := fun x => negb (Qeq_bool x 0)
|}.

End Exact.
(** ** Concrete series *)

(** Runs in binary64 with the constant kernel: a series of ten samples with
    two large deviations at its end, and one of 47 samples with one. *)
Module Examples.
Import Binary64.
#[local] Open Scope float_scope.

Definition blank : SplineModel float :=
  Build [] [] [] [] ∅ (fun x => x) [] true None.

Definition model_of (r : result (SplineModel float)) : SplineModel float :=
  match r with Ok m => m | Err _ => blank end.

Definition state_of {A} (r : result (A * SplineModel float * list event))
  : SplineModel float :=
  match r with Ok (_, m, _) => m | Err _ => blank end.

Definition ts : list float := [0; 1; 2; 3; 4; 5; 6; 7; 8; 9].
Definition ys : list float := [0; 1; 0; 1; 0; 1; 0; 1; 30; 500].

(** [SplineModel(ts, ys, nknots=2)]: knots [2; 7], mask of ones. *)
Definition fresh : SplineModel float := model_of (init ts ys 2 None None ∅).

(** The instance at the start of iteration [k] of [fresh.refine(0)]. *)
Definition after (k : nat) : SplineModel float := model_of (advance k fresh).

(** [fresh] after [refine(target_d=0)]: the last two samples are masked. *)
Definition refined : SplineModel float := state_of (refine 0 50 fresh).

(** [fresh] after [refine(target_d=1)]. *)
Definition loosely_refined : SplineModel float := state_of (refine 1 50 fresh).

(** A model with an outlier run over the samples 2 .. 5 and knots in and
    around its span. *)
Definition masked : SplineModel float :=
  model_of (init ts ys 2 (Some [1.5; 3; 4; 5; 7.5])
              (Some [1; 1; 0; 0; 0; 0; 1; 1; 1; 1]) ∅).

Definition cured : SplineModel float :=
  match cure_knots masked with Ok (new, _, _) => new | Err _ => blank end.

(** [refine()] with its defaults. *)
Definition no_args : refine_args := RefineArgs None None.

(** The first member that [knot_shift_aggregate(refined, 1, 0.5)] builds,
    before its [refine]. *)
Definition first_member : SplineModel float :=
  model_of (shifted_init refined (-1) 1).

(** 47 samples, one deviation, [nknots=2]: knots [11; 34]. *)
Definition long_ts : list float := map of_Z (range 0 47).
Definition long_ys : list float :=
  map (fun z : Z => if (z =? 40)%Z then 1000 else of_Z (z mod 2)) (range 0 47).
Definition long_refined : SplineModel float :=
  state_of (refine 0 50 (model_of (init long_ts long_ys 2 None None ∅))).
Definition long_aggregate : SplineModel float :=
  model_of (knot_shift_aggregate long_refined 1 0.5 no_args).

(** The knot sets of the members of
    [knot_shift_aggregate(refined, 3, 0.001)], the defaults; the literal
    is the binary64 number that [0.001] denotes. *)
Definition default_sets : list (list float) :=
  match shifted_knot_sets refined 3 0x1.0624dd2f1a9fcp-10 with
  | Ok sets => sets
  | Err _ => []
  end.
Definition default_first_knot : float := nth 0 (nth 0 default_sets []) 0.
Definition default_second_knot : float := nth 1 (nth 0 default_sets []) 0.


(** [SplineModel(ts, ys, nknots=-1)] *)
Definition negative_count : SplineModel float :=
  model_of (init ts ys (-1) None None ∅).

End Examples.

(** ** The members of a small ensemble *)

Module Ensemble.
Import Binary64 Examples.
#[local] Open Scope float_scope.

(** The two members of [knot_shift_aggregate(refined, 1, 0.5)], after
    their [refine]: the knots of [refined] moved by [-1] and by [1]. *)
Definition member_left : SplineModel float :=
  model_of (shifted_model refined no_args (-1) 1).
Definition member_right : SplineModel float :=
  model_of (shifted_model refined no_args 1 1).

(** [fresh] after [refine(target_d=10)]. *)
Definition tolerant : SplineModel float := state_of (refine 10 50 fresh).

End Ensemble.

(** * Properties *)

(** ** Properties of util.py *)

Lemma fold_scanner_runs (stream : list bool) :
  forall k open acc,
    res (fold_left mask_index_step (enumerate_from k stream) (scanner_of acc open))
    = acc ++ runs k open stream.
Proof.
  induction stream as [|w rest IH]; intros k open acc.
  - destruct open; simpl; now rewrite app_nil_r.
  - destruct w, open as [s|]; simpl.
    + pose proof (IH (S k) None (acc ++ [[s; k]])) as H. simpl in H.
      rewrite H. now rewrite <- app_assoc.
    + apply (IH (S k) None).
    + apply (IH (S k) (Some s)).
    + apply (IH (S k) (Some k)).
Qed.

Lemma mask_index_runs (l : list bool) :
  mask_index l = runs 0 None (l ++ [true]).
Proof.
  unfold mask_index, enumerate.
  now rewrite (fold_scanner_runs _ 0%nat None []).
Qed.

Lemma at_pos_app_l (pre l : list bool) (i : nat) :
  (i < length pre)%nat -> at_pos (pre ++ l) i = at_pos pre i.
Proof. intros Hi. unfold at_pos. now apply app_nth1. Qed.

Lemma at_pos_app_r (pre l : list bool) (i : nat) :
  (length pre <= i)%nat -> at_pos (pre ++ l) i = at_pos l (i - length pre).
Proof. intros Hi. unfold at_pos. now apply app_nth2. Qed.

Lemma at_pos_snoc (pre : list bool) (b : bool) :
  at_pos (pre ++ [b]) (length pre) = b.
Proof.
  rewrite at_pos_app_r by lia. now rewrite Nat.sub_diag.
Qed.

Lemma at_pos_past (l : list bool) (i : nat) :
  (length l <= i)%nat -> at_pos l i = true.
Proof. intros Hi. unfold at_pos. now apply nth_overflow. Qed.

Lemma at_pos_false_lt (l : list bool) (i : nat) :
  at_pos l i = false -> (i < length l)%nat.
Proof.
  intros Hf. destruct (Nat.lt_ge_cases i (length l)) as [Hlt|Hge]; [exact Hlt|].
  rewrite (at_pos_past _ _ Hge) in Hf. discriminate.
Qed.

(** Two maximal runs that share a position are one run. *)
Lemma maximal_run_unique (l : list bool) (s e s' e' i : nat) :
  maximal_run l s e -> maximal_run l s' e' ->
  (s <= i < e)%nat -> (s' <= i < e')%nat -> s = s' /\ e = e'.
Proof.
  intros (Hse & Hin & Hs & He) (Hse' & Hin' & Hs' & He') Hi Hi'.
  assert (Hstart : forall a b a' : nat,
             (forall j, (a <= j < b)%nat -> at_pos l j = false) ->
             (a' = O \/ at_pos l (a' - 1) = true) ->
             (a <= i < b)%nat -> (a' <= i)%nat -> (a' <= a)%nat).
  { intros a b a' Hall [->|Hprev] Hab Ha'; [lia|].
    destruct (Nat.le_gt_cases a' a) as [Hle|Hgt]; [exact Hle|].
    rewrite Hall in Hprev by lia. discriminate. }
  assert (Hend : forall a b b' : nat,
             (forall j, (a <= j < b)%nat -> at_pos l j = false) ->
             (b' = length l \/ at_pos l b' = true) ->
             (b <= length l)%nat ->
             (a <= i < b)%nat -> (i < b')%nat -> (b <= b')%nat).
  { intros a b b' Hall [->|Hnext] Hlen Hab Hb'; [lia|].
    destruct (Nat.le_gt_cases b b') as [Hle|Hgt]; [exact Hle|].
    rewrite Hall in Hnext by lia. discriminate. }
  split.
  - apply Nat.le_antisymm.
    + apply (Hstart s' e' s); auto; lia.
    + apply (Hstart s e s'); auto; lia.
  - apply Nat.le_antisymm.
    + apply (Hend s e e'); auto; lia.
    + apply (Hend s' e' e); auto; lia.
Qed.

(** The scanner finds exactly the maximal runs: the run being scanned
    starts at [s0] in the part [pre] already read; with no run being
    scanned, [pre] is empty or ends with [true]. *)
Lemma runs_maximal (l : list bool) :
  (forall pre : list bool,
      (length pre = O \/ at_pos pre (length pre - 1) = true) ->
      forall s e : nat,
        In [s; e] (runs (length pre) None (l ++ [true])) <->
        (length pre <= s)%nat /\ maximal_run (pre ++ l) s e) /\
  (forall (pre : list bool) (s0 : nat),
      (s0 < length pre)%nat ->
      (forall i, (s0 <= i < length pre)%nat -> at_pos pre i = false) ->
      (s0 = O \/ at_pos pre (s0 - 1) = true) ->
      forall s e : nat,
        In [s; e] (runs (length pre) (Some s0) (l ++ [true])) <->
        (s0 <= s)%nat /\ maximal_run (pre ++ l) s e).
Proof.
  induction l as [|b l [IHn IHs]].
  - split.
    + intros pre Hpre s e. simpl. rewrite app_nil_r. split; [tauto|].
      intros [Hle (Hse & _)]. lia.
    + intros pre s0 Hs0 Hrun Hprev s e. simpl. rewrite app_nil_r. split.
      * intros [Heq|[]]. injection Heq as <- <-. split; [lia|].
        repeat split; auto; try lia.
      * intros [Hle Hmax].
        assert (Hmine : maximal_run pre s0 (length pre)).
        { repeat split; auto; lia. }
        destruct Hmax as (Hse & Hmax).
        destruct (maximal_run_unique pre s e s0 (length pre) s
                    (conj Hse Hmax) Hmine) as [-> ->]; [lia|lia|].
        now left.
  - split.
    + intros pre Hpre s e.
      replace (pre ++ b :: l) with ((pre ++ [b]) ++ l)
        by now rewrite <- app_assoc.
      destruct b; simpl.
      * specialize (IHn (pre ++ [true])).
        rewrite length_app in IHn. simpl in IHn.
        replace (length pre + 1)%nat with (S (length pre)) in IHn by lia.
        rewrite IHn.
        2:{ right. replace (S (length pre) - 1)%nat with (length pre) by lia.
            apply at_pos_snoc. }
        split; [intros [? ?]; split; [lia|assumption]|].
        intros [Hle Hmax]. split; [|assumption].
        destruct (Nat.eq_dec s (length pre)) as [->|Hne]; [|lia].
        destruct Hmax as (Hse & Hin & _).
        specialize (Hin (length pre)). rewrite at_pos_app_l in Hin
          by (rewrite length_app; simpl; lia).
        rewrite at_pos_snoc in Hin. specialize (Hin ltac:(lia)). discriminate.
      * specialize (IHs (pre ++ [false]) (length pre)).
        rewrite length_app in IHs. simpl in IHs.
        replace (length pre + 1)%nat with (S (length pre)) in IHs by lia.
        apply IHs.
        -- lia.
        -- intros i Hi. replace i with (length pre) by lia. apply at_pos_snoc.
        -- destruct Hpre as [Hz|Hlast]; [left; exact Hz|].
           destruct (Nat.eq_dec (length pre) O) as [Hz|Hnz]; [left; exact Hz|right].
           rewrite at_pos_app_l by lia. exact Hlast.
    + intros pre s0 Hs0 Hrun Hprev s e.
      replace (pre ++ b :: l) with ((pre ++ [b]) ++ l)
        by now rewrite <- app_assoc.
      destruct b; simpl.
      * specialize (IHn (pre ++ [true])).
        rewrite length_app in IHn. simpl in IHn.
        replace (length pre + 1)%nat with (S (length pre)) in IHn by lia.
        rewrite IHn.
        2:{ right. replace (S (length pre) - 1)%nat with (length pre) by lia.
            apply at_pos_snoc. }
        assert (Hmine : maximal_run ((pre ++ [true]) ++ l) s0 (length pre)).
        { repeat split.
          - lia.
          - rewrite !length_app. simpl. lia.
          - intros i Hi. rewrite at_pos_app_l by (rewrite length_app; simpl; lia).
            rewrite at_pos_app_l by lia. apply Hrun. lia.
          - destruct Hprev as [Hz|Hp]; [left; exact Hz|right].
            rewrite at_pos_app_l by (rewrite length_app; simpl; lia).
            rewrite at_pos_app_l by lia. exact Hp.
          - right. rewrite at_pos_app_l by (rewrite length_app; simpl; lia).
            apply at_pos_snoc. }
        split.
        -- intros [Heq|[Hle Hmax]].
           ++ injection Heq as <- <-. split; [lia|exact Hmine].
           ++ split; [lia|exact Hmax].
        -- intros [Hle Hmax].
           destruct (Nat.le_gt_cases (S (length pre)) s) as [Hge|Hlt];
             [right; split; assumption|left].
           assert (Hs : (s < length pre)%nat).
           { destruct (Nat.eq_dec s (length pre)) as [->|Hne]; [|lia].
             destruct Hmax as (Hse & Hin & _).
             specialize (Hin (length pre) ltac:(lia)).
             rewrite at_pos_app_l in Hin by (rewrite length_app; simpl; lia).
             rewrite at_pos_snoc in Hin. discriminate. }
           destruct (maximal_run_unique _ s e s0 (length pre) s Hmax Hmine)
             as [-> ->]; [destruct Hmax as (? & _); lia|lia|reflexivity].
      * specialize (IHs (pre ++ [false]) s0).
        rewrite length_app in IHs. simpl in IHs.
        replace (length pre + 1)%nat with (S (length pre)) in IHs by lia.
        apply IHs.
        -- lia.
        -- intros i Hi.
           destruct (Nat.eq_dec i (length pre)) as [->|Hne];
             [apply at_pos_snoc|].
           rewrite at_pos_app_l by lia. apply Hrun. lia.
        -- destruct Hprev as [Hz|Hp]; [left; exact Hz|right].
           rewrite at_pos_app_l by lia. exact Hp.
Qed.

Lemma ascending_disjoint_weaken (ivs : list (list nat)) (b b' : nat) :
  (b' <= b)%nat -> ascending_disjoint b ivs -> ascending_disjoint b' ivs.
Proof.
  destruct ivs as [|x ivs]; [trivial|].
  intros Hb (s & e & -> & Hs & Hse & Hrest).
  exists s, e. repeat split; auto; lia.
Qed.

Lemma runs_ascending (stream : list bool) :
  forall k : nat,
    ascending_disjoint k (runs k None stream) /\
    (forall s0 : nat, (s0 < k)%nat ->
                      ascending_disjoint s0 (runs k (Some s0) stream)).
Proof.
  induction stream as [|b rest IH]; intros k; [simpl; auto|].
  destruct (IH (S k)) as [IHn IHs].
  destruct b; simpl; split.
  - apply (ascending_disjoint_weaken _ (S k)); [lia|exact IHn].
  - intros s0 Hs0. exists s0, k. repeat split; auto.
  - apply (ascending_disjoint_weaken _ k); [lia|]. apply IHs. lia.
  - intros s0 Hs0. apply IHs. lia.
Qed.

Lemma ascending_disjoint_shape (ivs : list (list nat)) :
  forall b : nat,
    ascending_disjoint b ivs ->
    Forall (fun x => exists s e : nat, x = [s; e] /\ (b <= s < e)%nat) ivs.
Proof.
  induction ivs as [|x ivs IH]; intros b Hasc; [constructor|].
  destruct Hasc as (s & e & -> & Hs & Hse & Hrest).
  constructor; [exists s, e; split; [reflexivity|lia]|].
  apply IH in Hrest. eapply List.Forall_impl; [|exact Hrest].
  intros y (s' & e' & -> & Hb). exists s', e'. split; [reflexivity|lia].
Qed.

(** A position that reads [false] lies in a maximal run. *)
Lemma false_in_maximal_run (l : list bool) (i : nat) :
  at_pos l i = false ->
  exists s e : nat, maximal_run l s e /\ (s <= i < e)%nat.
Proof.
  intros Hi.
  assert (Hleft : forall j : nat, at_pos l j = false ->
            exists s : nat, (s <= j)%nat /\
              (forall m, (s <= m <= j)%nat -> at_pos l m = false) /\
              (s = O \/ at_pos l (s - 1) = true)).
  { induction j as [|j IHj]; intros Hj.
    - exists O. repeat split; auto. intros m Hm. now replace m with O by lia.
    - destruct (at_pos l j) eqn:Hprev.
      + exists (S j). repeat split; auto.
        * intros m Hm. now replace m with (S j) by lia.
        * right. now replace (S j - 1)%nat with j by lia.
      + destruct (IHj eq_refl) as (s & Hs & Hall & Hst).
        exists s. repeat split; auto.
        intros m Hm. destruct (Nat.eq_dec m (S j)) as [->|Hne]; [exact Hj|].
        apply Hall. lia. }
  assert (Hright : forall n j : nat, (j + n = length l)%nat ->
            at_pos l j = false ->
            exists e : nat, (j < e <= length l)%nat /\
              (forall m, (j <= m < e)%nat -> at_pos l m = false) /\
              (e = length l \/ at_pos l e = true)).
  { induction n as [|n IHn]; intros j Hlen Hj.
    - apply at_pos_false_lt in Hj. lia.
    - pose proof (at_pos_false_lt _ _ Hj) as Hlt.
      destruct (at_pos l (S j)) eqn:Hnext.
      + exists (S j). repeat split; auto; try lia.
        intros m Hm. now replace m with j by lia.
      + destruct (IHn (S j) ltac:(lia) Hnext) as (e & He & Hall & Hen).
        exists e. repeat split; auto; try lia.
        intros m Hm. destruct (Nat.eq_dec m j) as [->|Hne]; [exact Hj|].
        apply Hall. lia. }
  destruct (Hleft i Hi) as (s & Hs & Hls & Hst).
  pose proof (at_pos_false_lt _ _ Hi) as Hlt.
  destruct (Hright (length l - i)%nat i ltac:(lia) Hi) as (e & He & Hrs & Hen).
  exists s, e. split; [|lia].
  repeat split; auto; try lia.
  intros m Hm. destruct (Nat.le_gt_cases m i); [apply Hls|apply Hrs]; lia.
Qed.

Lemma mask_index_maximal (l : list bool) (s e : nat) :
  In [s; e] (mask_index l) <-> maximal_run l s e.
Proof.
  rewrite mask_index_runs.
  destruct (runs_maximal l) as [Hn _].
  specialize (Hn [] (or_introl eq_refl) s e). simpl in Hn.
  rewrite Hn. split; [tauto|]. intros Hm. split; [lia|exact Hm].
Qed.

Lemma mask_index_ascending (l : list bool) :
  ascending_disjoint 0 (mask_index l).
Proof.
  rewrite mask_index_runs. apply runs_ascending.
Qed.

Lemma mask_index_covers (l : list bool) (i : nat) :
  existsb (covers i) (mask_index l) = negb (at_pos l i).
Proof.
  pose proof (ascending_disjoint_shape _ _ (mask_index_ascending l)) as Hshape.
  rewrite List.Forall_forall in Hshape.
  destruct (at_pos l i) eqn:Hi; simpl.
  - apply not_true_is_false. intros Hex.
    apply existsb_exists in Hex. destruct Hex as (x & Hx & Hc).
    destruct (Hshape x Hx) as (s & e & -> & _).
    simpl in Hc. apply andb_true_iff in Hc. destruct Hc as [Hs He].
    apply Nat.leb_le in Hs. apply Nat.ltb_lt in He.
    apply mask_index_maximal in Hx. destruct Hx as (_ & Hall & _).
    rewrite Hall in Hi by lia. discriminate.
  - apply existsb_exists.
    destruct (false_in_maximal_run l i Hi) as (s & e & Hmax & Hse).
    exists [s; e]. split; [now apply mask_index_maximal|].
    simpl. apply andb_true_iff. split; [apply Nat.leb_le|apply Nat.ltb_lt]; lia.
Qed.

Lemma decode_mask_index (l : list bool) :
  decode (length l) (mask_index l) = l.
Proof.
  unfold decode.
  apply (nth_ext _ _ true true).
  - now rewrite length_map, length_seq.
  - intros i Hi. rewrite length_map, length_seq in Hi.
    rewrite (nth_indep _ true (negb (existsb (covers 0) (mask_index l))))
      by now rewrite length_map, length_seq.
    rewrite (map_nth (fun i => negb (existsb (covers i) (mask_index l)))).
    rewrite seq_nth by exact Hi. simpl.
    rewrite mask_index_covers. apply negb_involutive.
Qed.

Lemma ascending_disjoint_NoDup (ivs : list (list nat)) :
  forall b : nat, ascending_disjoint b ivs -> NoDup ivs.
Proof.
  induction ivs as [|x ivs IH]; intros b Hasc; [constructor|].
  destruct Hasc as (s & e & -> & Hs & Hse & Hrest).
  constructor; [|now apply (IH (S e))].
  intros Hin. apply list_elem_of_In in Hin.
  apply ascending_disjoint_shape in Hrest.
  rewrite List.Forall_forall in Hrest.
  destruct (Hrest _ Hin) as (s' & e' & Heq & Hb).
  injection Heq as <- <-. lia.
Qed.

Lemma all_true_at_pos (l : list bool) (i : nat) :
  forallb id l = true -> at_pos l i = true.
Proof.
  intros Hall.
  destruct (Nat.lt_ge_cases i (length l)) as [Hlt|Hge];
    [|now apply at_pos_past].
  rewrite forallb_forall in Hall.
  apply (Hall (at_pos l i)). unfold at_pos. now apply nth_In.
Qed.

(** C5.  For every boolean sequence [l], [mask_index l] is a list of
    two-element intervals [s; e], in increasing order of start and pairwise
    disjoint; its members are exactly the maximal runs of [false] of [l],
    each listed once; a position of [l] is [false] exactly when an interval
    covers it, so that decoding the intervals gives [l] back; the empty
    sequence and every all-[true] sequence give the empty list; a run that
    reaches the end of [l] is closed at the sentinel position [length l];
    and the four examples of the docstring evaluate as documented. *)
Theorem mask_index_contract (l : list bool) :
  ascending_disjoint 0 (mask_index l) /\
  NoDup (mask_index l) /\
  (forall x : list nat,
      In x (mask_index l) <-> exists s e : nat, x = [s; e] /\ maximal_run l s e) /\
  (forall i : nat,
      (i < length l)%nat ->
      (nth i l true = false <->
       exists x : list nat, In x (mask_index l) /\ covers i x = true)) /\
  decode (length l) (mask_index l) = l /\
  mask_index [] = [] /\
  (forallb id l = true -> mask_index l = []) /\
  (l <> [] -> List.last l true = false ->
   exists s : nat, In [s; length l] (mask_index l)) /\
  mask_index [true; true; false; false; false; true; false; true]
    = [[2; 5]; [6; 7]]%nat /\
  mask_index [false; false; false] = [[0; 3]]%nat /\
  mask_index [true; true] = [].
Proof.
  pose proof (mask_index_ascending l) as Hasc.
  split; [exact Hasc|].
  split; [exact (ascending_disjoint_NoDup _ _ Hasc)|].
  split.
  { intros x. split.
    - intros Hin.
      pose proof (ascending_disjoint_shape _ _ Hasc) as Hshape.
      rewrite List.Forall_forall in Hshape.
      destruct (Hshape x Hin) as (s & e & -> & _).
      exists s, e. split; [reflexivity|now apply mask_index_maximal].
    - intros (s & e & -> & Hmax). now apply mask_index_maximal. }
  split.
  { intros i Hi. fold (at_pos l i).
    pose proof (mask_index_covers l i) as Hcov. split.
    - intros Hf. rewrite Hf in Hcov. now apply existsb_exists.
    - intros Hex. apply existsb_exists in Hex. rewrite Hex in Hcov.
      now destruct (at_pos l i). }
  split; [apply decode_mask_index|].
  split; [reflexivity|].
  split.
  { intros Hall. destruct (mask_index l) as [|x ivs] eqn:Hm; [reflexivity|].
    exfalso.
    destruct Hasc as (s & e & -> & _ & Hse & _).
    assert (Hin : In [s; e] (mask_index l)) by (rewrite Hm; now left).
    apply mask_index_maximal in Hin. destruct Hin as (_ & Hf & _).
    specialize (Hf s ltac:(lia)).
    rewrite all_true_at_pos in Hf by exact Hall. discriminate. }
  split.
  { intros Hne Hlast.
    assert (Hlen : (0 < length l)%nat) by (destruct l; [congruence|simpl; lia]).
    assert (Hf : at_pos l (length l - 1) = false).
    { unfold at_pos. rewrite <- Hlast.
      destruct l as [|a l']; [congruence|].
      rewrite (List.app_removelast_last true (l := a :: l')) at 1 2 by congruence.
      rewrite length_app. simpl length at 2.
      replace (length (removelast (a :: l')) + 1 - 1)%nat
        with (length (removelast (a :: l'))) by lia.
      rewrite app_nth2 by lia. now rewrite Nat.sub_diag. }
    destruct (false_in_maximal_run l _ Hf) as (s & e & Hmax & Hse).
    exists s. apply mask_index_maximal.
    destruct Hmax as (Hb & Hrest). now replace (length l) with e by lia. }
  repeat split; reflexivity.
Qed.

Lemma dist_nonneg (x y : list bool) : 0 <= dist x y.
Proof.
  revert y. induction x as [|a x IH]; intros [|b y]; simpl; try lia.
  specialize (IH y). destruct (xorb a b); lia.
Qed.

(** [dist] is a metric on boolean sequences of one length: it is zero on
    equal arguments and only there, symmetric, and satisfies the triangle
    inequality. *)
Theorem dist_metric :
  (forall x : list bool, dist x x = 0) /\
  (forall x y : list bool, length x = length y -> dist x y = 0 -> x = y) /\
  (forall x y : list bool, dist x y = dist y x) /\
  (forall x y z : list bool,
      length x = length y -> length y = length z ->
      dist x z <= dist x y + dist y z).
Proof.
  split; [|split; [|split]].
  - induction x as [|a x IH]; simpl; [reflexivity|].
    rewrite xorb_nilpotent, IH. reflexivity.
  - induction x as [|a x IH]; intros [|b y] Hlen Hd; simpl in *;
      try reflexivity; try discriminate.
    pose proof (dist_nonneg x y) as Hnn.
    destruct a, b; simpl in Hd; try lia;
      f_equal; apply IH; lia.
  - induction x as [|a x IH]; intros [|b y]; simpl; try reflexivity.
    rewrite (xorb_comm a b), (IH y). reflexivity.
  - induction x as [|a x IH]; intros [|b y] [|c z] Hxy Hyz; simpl in *;
      try lia; try discriminate.
    specialize (IH y z ltac:(lia) ltac:(lia)).
    destruct a, b, c; simpl; lia.
Qed.

(** ** Properties of spline_model.py *)

Section ModelFacts.
Context {F : Type} `{FloatOps F} `{Kernel F}.

Ltac unfold_method :=
  unfold mbind, method_bind, mret, method_ret, get, put, emit, lift,
         result_bind, result_ret, Py.bind in *.

Lemma replace_mask_eq (w' : list F) (self : SplineModel F) :
  replace_mask w' self =
  if (length w' =? length (t self))%nat then
    match LSQUnivariateSpline (t self) (y self) (knots self) w'
            (_kwargs_save self) with
    | Ok spr =>
        Ok (tt,
            {| t := t self; y := y self; knots := knots self; w := w';
               _kwargs_save := _kwargs_save self; _spr := spr;
               self_pred := map spr (t self); _stats_dirty := true;
               rmad := rmad self |},
            [Fitted])
    | Err e => Err e
    end
  else Err AssertionError.
Proof.
  unfold replace_mask, assert. unfold_method.
  destruct (length w' =? length (t self))%nat; [|reflexivity].
  now destruct (LSQUnivariateSpline _ _ _ _ _).
Qed.

(** What a classification changes: the cached statistic, nothing else;
    and it logs one call. *)
Lemma inlier_predicate_frame (tq yq : list F) (ub lb : Z)
    (self self' : SplineModel F) (cand : list bool) (log : list event) :
  inlier_predicate tq yq ub lb self = Ok (cand, self', log) ->
  log = [Classified] /\ same_fit self self' /\ _stats_dirty self' = false.
Proof.
  unfold inlier_predicate. unfold_method. unfold same_fit.
  destruct (_stats_dirty self) eqn:Hdirty.
  - destruct (select (y self) _) as [ysel|]; [|discriminate].
    destruct (select (self_pred self) _) as [psel|]; [|discriminate].
    destruct (elementwise fsub ysel psel) as [residuals|]; [|discriminate].
    simpl.
    destruct (elementwise fsub yq _) as [diffs|]; [|discriminate].
    intros [= <- <- <-]. simpl. repeat split; reflexivity.
  - destruct (elementwise fsub yq _) as [diffs|]; [|discriminate].
    destruct (rmad self) as [r|]; [|discriminate].
    intros [= <- <- <-]. simpl. repeat split; auto.
Qed.

(** Classifying again, with nothing changed in between, gives the same
    mask and leaves the instance as it is. *)
Lemma inlier_predicate_again (tq yq : list F) (ub lb : Z)
    (self self' : SplineModel F) (cand : list bool) (log : list event) :
  inlier_predicate tq yq ub lb self = Ok (cand, self', log) ->
  inlier_predicate tq yq ub lb self' = Ok (cand, self', log).
Proof.
  unfold inlier_predicate. unfold_method.
  destruct (_stats_dirty self) eqn:Hdirty.
  - destruct (select (y self) _) as [ysel|]; [|discriminate].
    destruct (select (self_pred self) _) as [psel|]; [|discriminate].
    destruct (elementwise fsub ysel psel) as [residuals|]; [|discriminate].
    simpl. unfold call. simpl.
    destruct (elementwise fsub yq _) as [diffs|] eqn:Hd; [|discriminate].
    intros [= <- <- <-]. simpl. rewrite Hd. reflexivity.
  - destruct (elementwise fsub yq _) as [diffs|] eqn:Hd; [|discriminate].
    destruct (rmad self) as [r|] eqn:Hr; [|discriminate].
    intros [= <- <- <-]. rewrite Hdirty, Hd, Hr. reflexivity.
Qed.

Lemma calls_app (e : event) (l1 l2 : list event) :
  calls e (l1 ++ l2) = calls e l1 + calls e l2.
Proof. induction l1 as [|a l1 IH]; simpl; [reflexivity|]. rewrite IH. lia. Qed.

(** One turn of the loop of [refine]. *)
Lemma refine_loop_S (td : Z) (r : nat) (n : Z) (dx : option Z)
    (self : SplineModel F) :
  refine_loop td (S r) n dx self =
  match classify self with
  | Err e => Err e
  | Ok (cand, self1, log1) =>
      let d := dist cand (asarray_bool (w self1)) in
      if d <=? td then Ok (MkFitResult 0 "Converged" n d, self1, log1)
      else
        match replace_mask (asarray_float cand) self1 with
        | Err e => Err e
        | Ok (_, self2, log2) =>
            match refine_loop td r (n + 1) (Some d) self2 with
            | Err e => Err e
            | Ok (res, self3, log3) => Ok (res, self3, log1 ++ log2 ++ log3)
            end
        end
  end.
Proof.
  unfold classify. simpl. unfold_method.
  destruct (inlier_predicate _ _ _ _ self) as [[[cand self1] log1]|]; [|reflexivity].
  simpl.
  destruct (dist cand (asarray_bool (w self1)) <=? td).
  - now rewrite app_nil_r.
  - destruct (replace_mask _ self1) as [[[[] self2] log2]|]; [|reflexivity].
    now destruct (refine_loop td r (n + 1) _ self2) as [[[res self3] log3]|].
Qed.

Lemma candidate_distance_eq (self self1 : SplineModel F) (cand : list bool)
    (log1 : list event) :
  classify self = Ok (cand, self1, log1) ->
  candidate_distance self = Ok (dist cand (asarray_bool (w self1))).
Proof. intros Hc. unfold candidate_distance. now rewrite Hc. Qed.

Lemma commit_eq (self self1 self2 : SplineModel F) (cand : list bool)
    (log1 log2 : list event) (u : unit) :
  classify self = Ok (cand, self1, log1) ->
  replace_mask (asarray_float cand) self1 = Ok (u, self2, log2) ->
  commit self = Ok self2.
Proof. intros Hc Hr. unfold commit. rewrite Hc. simpl. now rewrite Hr. Qed.

Lemma commit_inv (self self2 : SplineModel F) :
  commit self = Ok self2 ->
  exists cand self1,
    classify self = Ok (cand, self1, [Classified]) /\
    replace_mask (asarray_float cand) self1 = Ok (tt, self2, [Fitted]) /\
    w self2 = asarray_float cand.
Proof.
  unfold commit.
  destruct (classify self) as [[[cand self1] log1]|] eqn:Hc; [|discriminate].
  simpl.
  destruct (replace_mask _ self1) as [[[[] s2] log2]|] eqn:Hr; [|discriminate].
  simpl. intros [= <-].
  destruct (inlier_predicate_frame _ _ _ _ _ _ _ _ Hc) as (-> & _).
  exists cand, self1. split; [reflexivity|].
  pose proof Hr as Hr'. rewrite replace_mask_eq in Hr'.
  destruct (length _ =? length _)%nat; [|discriminate].
  destruct (LSQUnivariateSpline _ _ _ _ _); [|discriminate].
  injection Hr' as <- <-. split; [exact Hr|reflexivity].
Qed.

Lemma advance_snoc (k : nat) :
  forall self : SplineModel F,
    advance (S k) self = (prev ← advance k self; commit prev).
Proof.
  induction k as [|k IH]; intros self.
  - simpl. unfold_method. now destruct (commit self).
  - change (advance (S (S k)) self)
      with (mbind (advance (S k)) (commit self)).
    change (advance (S k) self) with (mbind (advance k) (commit self)).
    destruct (commit self) as [self'|]; [|reflexivity].
    exact (IH self').
Qed.

Lemma all_exceed_S (td : Z) (k : nat) (self self2 : SplineModel F) (d : Z) :
  candidate_distance self = Ok d -> td < d ->
  commit self = Ok self2 ->
  all_exceed td k self2 -> all_exceed td (S k) self.
Proof.
  intros Hd Hlt Hc Hall [|j] Hj.
  - exists self, d. auto.
  - destruct (Hall j ltac:(lia)) as (sj & dj & Ha & Hdj & Hlj).
    exists sj, dj. simpl. rewrite Hc. auto.
Qed.

Lemma all_exceed_inv (td : Z) (k : nat) (self : SplineModel F) :
  all_exceed td (S k) self ->
  exists d : Z, candidate_distance self = Ok d /\ td < d /\
    forall self2, commit self = Ok self2 -> all_exceed td k self2.
Proof.
  intros Hall.
  destruct (Hall O ltac:(lia)) as (s0 & d & Ha & Hd & Hlt).
  injection Ha as <-.
  exists d. repeat split; auto.
  intros self2 Hc j Hj.
  destruct (Hall (S j) ltac:(lia)) as (sj & dj & Haj & Hdj & Hlj).
  simpl in Haj. rewrite Hc in Haj. exists sj, dj. auto.
Qed.

(** What the loop of [refine] returns, read off its iterations. *)
Lemma refine_loop_inv (td : Z) (r : nat) :
  forall (n : Z) (dx : option Z) (self self' : SplineModel F)
         (res : FitResult) (log : list event),
    refine_loop td r n dx self = Ok (res, self', log) ->
    (exists (k : nat) (prev : SplineModel F) (cand : list bool),
        (k < r)%nat /\
        res = MkFitResult 0 "Converged" (n + Z.of_nat k)
                (dist cand (asarray_bool (w self'))) /\
        advance k self = Ok prev /\
        all_exceed td k self /\
        classify prev = Ok (cand, self', [Classified]) /\
        dist cand (asarray_bool (w self')) <= td /\
        calls Classified log = Z.of_nat k + 1 /\
        calls Fitted log = Z.of_nat k)
    \/
    (exists dl : Z,
        res = MkFitResult 1 "Maximum iteration limit exceeded"
                (n + Z.of_nat r) dl /\
        advance r self = Ok self' /\
        all_exceed td r self /\
        calls Classified log = Z.of_nat r /\
        calls Fitted log = Z.of_nat r /\
        match r with
        | O => dx = Some dl
        | S r' => exists last : SplineModel F,
                    advance r' self = Ok last /\
                    candidate_distance last = Ok dl
        end).
Proof.
  induction r as [|r IH]; intros n dx self self' res log Hrun.
  - right. simpl in Hrun. unfold_method.
    destruct dx as [d|]; [|discriminate].
    injection Hrun as <- <- <-. exists d.
    rewrite Z.add_0_r. repeat split; auto.
    intros j Hj. lia.
  - rewrite refine_loop_S in Hrun.
    destruct (classify self) as [[[cand self1] log1]|] eqn:Hc; [|discriminate].
    pose proof (inlier_predicate_frame _ _ _ _ _ _ _ _ Hc) as (-> & _ & _).
    pose proof (candidate_distance_eq _ _ _ _ Hc) as Hd.
    simpl in Hrun.
    destruct (dist cand (asarray_bool (w self1)) <=? td) eqn:Htest.
    + left. injection Hrun as <- <- <-. apply Z.leb_le in Htest.
      exists O, self, cand. rewrite Z.add_0_r.
      repeat split; auto; try lia.
      intros j Hj. lia.
    + apply Z.leb_gt in Htest.
      destruct (replace_mask _ self1) as [[[[] self2] log2]|] eqn:Hr;
        [|discriminate].
      pose proof (commit_eq _ _ _ _ _ _ _ Hc Hr) as Hcommit.
      destruct (commit_inv _ _ Hcommit) as (cand' & self1' & Hc' & Hr' & _).
      rewrite Hc in Hc'. injection Hc' as <- <-.
      rewrite Hr in Hr'. injection Hr' as ->.
      destruct (refine_loop td r (n + 1) _ self2) as [[[res' self3] log3]|]
        eqn:Hrest; [|discriminate].
      injection Hrun as <- <- <-.
      destruct (IH _ _ _ _ _ _ Hrest)
        as [(k & prev & cand2 & Hk & Hres & Hadv & Hall & Hcl & Hle & Hnc & Hnf)
           |(dl & Hres & Hadv & Hall & Hnc & Hnf & Hlast)].
      * left. exists (S k), prev, cand2.
        split; [lia|]. split; [rewrite Hres; f_equal; lia|].
        split; [simpl; now rewrite Hcommit|].
        split; [now apply (all_exceed_S td k self self2 _ Hd)|].
        repeat split; auto; simpl calls; lia.
      * right. exists dl.
        split; [rewrite Hres; f_equal; lia|].
        split; [simpl; now rewrite Hcommit|].
        split; [now apply (all_exceed_S td r self self2 _ Hd)|].
        split; [simpl calls; lia|]. split; [simpl calls; lia|].
        destruct r as [|r'].
        -- exists self. injection Hlast as <-. auto.
        -- destruct Hlast as (last & Hl & Hdl). exists last.
           split; [|exact Hdl].
           change (advance (S r') self) with (s ← commit self; advance r' s).
           rewrite Hcommit. exact Hl.
Qed.

Lemma refine_loop_converges (td : Z) (k : nat) :
  forall (r : nat) (n : Z) (dx : option Z) (self prev : SplineModel F) (d : Z),
    (k < r)%nat ->
    advance k self = Ok prev ->
    all_exceed td k self ->
    candidate_distance prev = Ok d -> d <= td ->
    exists (self' : SplineModel F) (log : list event),
      refine_loop td r n dx self
      = Ok (MkFitResult 0 "Converged" (n + Z.of_nat k) d, self', log).
Proof.
  induction k as [|k IH]; intros r n dx self prev d Hk Hadv Hall Hd Hle;
    (destruct r as [|r]; [lia|]); rewrite refine_loop_S.
  - injection Hadv as <-. unfold candidate_distance in Hd.
    destruct (classify self) as [[[cand self1] log1]|]; [|discriminate].
    simpl in Hd. injection Hd as <-. simpl.
    apply Z.leb_le in Hle. rewrite Hle. rewrite Z.add_0_r. eauto.
  - destruct (all_exceed_inv _ _ _ Hall) as (d0 & Hd0 & Hlt & Hrest).
    simpl in Hadv.
    destruct (commit self) as [self2|] eqn:Hc; [|discriminate].
    destruct (commit_inv _ _ Hc) as (cand & self1 & Hcl & Hr & _).
    rewrite Hcl. rewrite (candidate_distance_eq _ _ _ _ Hcl) in Hd0.
    injection Hd0 as <-. simpl.
    apply Z.leb_gt in Hlt. rewrite Hlt. rewrite Hr.
    destruct (IH r (n + 1) (Some (dist cand (asarray_bool (w self1))))
                self2 prev d ltac:(lia) Hadv (Hrest _ eq_refl) Hd Hle)
      as (self' & log & ->).
    replace (n + 1 + Z.of_nat k) with (n + Z.of_nat (S k)) by lia. eauto.
Qed.

Lemma refine_loop_exceeds (td : Z) (r : nat) :
  forall (n : Z) (dx : option Z) (self self' : SplineModel F),
    (r = O -> exists d0, dx = Some d0) ->
    advance r self = Ok self' ->
    all_exceed td r self ->
    exists (dl : Z) (log : list event),
      refine_loop td r n dx self
      = Ok (MkFitResult 1 "Maximum iteration limit exceeded"
              (n + Z.of_nat r) dl, self', log).
Proof.
  induction r as [|r IH]; intros n dx self self' Hdx Hadv Hall.
  - destruct (Hdx eq_refl) as (d0 & ->). injection Hadv as <-.
    exists d0, []. simpl. now rewrite Z.add_0_r.
  - rewrite refine_loop_S.
    destruct (all_exceed_inv _ _ _ Hall) as (d0 & Hd0 & Hlt & Hrest).
    simpl in Hadv.
    destruct (commit self) as [self2|] eqn:Hc; [|discriminate].
    destruct (commit_inv _ _ Hc) as (cand & self1 & Hcl & Hr & _).
    rewrite Hcl. rewrite (candidate_distance_eq _ _ _ _ Hcl) in Hd0.
    injection Hd0 as <-. simpl.
    apply Z.leb_gt in Hlt. rewrite Hlt. rewrite Hr.
    destruct (IH (n + 1) (Some (dist cand (asarray_bool (w self1))))
                self2 self' ltac:(intros _; eauto) Hadv (Hrest _ eq_refl))
      as (dl & log & ->).
    replace (n + 1 + Z.of_nat r) with (n + Z.of_nat (S r)) by lia. eauto.
Qed.

Lemma refine_eq (td mi : Z) (self : SplineModel F) :
  refine td mi self =
  if 0 <=? td then
    if 0 <? mi then refine_loop td (Z.to_nat (mi + 1)) 0 None self
    else Err AssertionError
  else Err AssertionError.
Proof.
  unfold refine, assert. unfold_method.
  destruct (0 <=? td); [|reflexivity].
  destruct (0 <? mi); [|reflexivity].
  now destruct (refine_loop _ _ _ _ _) as [[[res s] log]|].
Qed.

(** C4.  With [0 <= target_d] and [0 < maxiter], [refine] returns
    "Converged" with [niter = k] and [dfinal = d] exactly when [k] is at
    most [maxiter], the distance between the candidate mask and the
    committed mask exceeded [target_d] in the iterations [0 .. k-1], and
    in iteration [k] that distance is [d] with [d <= target_d].  A
    converged run has made [niter + 1] classifications; any other run that
    returns has status 1, [niter = maxiter + 1] and has made exactly
    [maxiter + 1] classifications; and a run whose test fails in all the
    iterations [0 .. maxiter] does return so, with the last distance
    computed as [dfinal]. *)
Theorem refine_stops_exactly (td mi : Z) (self : SplineModel F) :
  0 <= td -> 0 < mi ->
  (forall (k : nat) (d : Z),
      (exists (self' : SplineModel F) (log : list event),
          refine td mi self
          = Ok (MkFitResult 0 "Converged" (Z.of_nat k) d, self', log))
      <->
      (Z.of_nat k <= mi /\ all_exceed td k self /\
       exists prev : SplineModel F,
         advance k self = Ok prev /\ candidate_distance prev = Ok d /\
         d <= td)) /\
  (forall (res : FitResult) (self' : SplineModel F) (log : list event),
      refine td mi self = Ok (res, self', log) ->
      (status res = 0 /\ message res = "Converged"%string /\
       0 <= niter res <= mi /\ dfinal res <= td /\
       calls Classified log = niter res + 1)
      \/
      (status res = 1 /\
       message res = "Maximum iteration limit exceeded"%string /\
       niter res = mi + 1 /\
       calls Classified log = mi + 1 /\
       all_exceed td (Z.to_nat (mi + 1)) self)) /\
  (all_exceed td (Z.to_nat (mi + 1)) self ->
   forall self' : SplineModel F,
     advance (Z.to_nat (mi + 1)) self = Ok self' ->
     exists (dl : Z) (log : list event) (last : SplineModel F),
       refine td mi self
       = Ok (MkFitResult 1 "Maximum iteration limit exceeded" (mi + 1) dl,
             self', log) /\
       calls Classified log = mi + 1 /\
       advance (Z.to_nat mi) self = Ok last /\
       candidate_distance last = Ok dl).
Proof.
  intros Htd Hmi. rewrite refine_eq.
  destruct (Z.leb_spec 0 td) as [_|]; [|lia].
  destruct (Z.ltb_spec 0 mi) as [_|]; [|lia].
  split; [|split].
  - intros k d. split.
    + intros (self' & log & Hrun).
      destruct (refine_loop_inv _ _ _ _ _ _ _ _ Hrun)
        as [(k' & prev & cand & Hk & Hres & Hadv & Hall & Hcl & Hle & _)
           |(dl & Hres & _)]; [|discriminate].
      injection Hres as Hk' Hd.
      assert (k' = k) as -> by lia.
      split; [lia|]. split; [exact Hall|].
      exists prev. rewrite Hd.
      split; [exact Hadv|]. split; [|exact Hle].
      exact (candidate_distance_eq _ _ _ _ Hcl).
    + intros (Hk & Hall & prev & Hadv & Hd & Hle).
      destruct (refine_loop_converges td k (Z.to_nat (mi + 1)) 0 None
                  self prev d ltac:(lia) Hadv Hall Hd Hle)
        as (self' & log & Hrun).
      exists self', log. exact Hrun.
  - intros res self' log Hrun.
    destruct (refine_loop_inv _ _ _ _ _ _ _ _ Hrun)
      as [(k' & prev & cand & Hk & -> & Hadv & Hall & Hcl & Hle & Hnc & _)
         |(dl & -> & Hadv & Hall & Hnc & _)]; [left|right]; simpl.
    + repeat split; auto; lia.
    + repeat split; auto; lia.
  - intros Hall self' Hadv.
    destruct (refine_loop_exceeds td (Z.to_nat (mi + 1)) 0 None self self'
                ltac:(lia) Hadv Hall) as (dl & log & Hrun).
    destruct (refine_loop_inv _ _ _ _ _ _ _ _ Hrun)
      as [(k' & prev & cand & Hk & Hres & _)
         |(dl' & Hres & _ & _ & Hnc & _ & Hlast)]; [discriminate|].
    injection Hres as Hdl0. subst dl'.
    replace (Z.to_nat (mi + 1)) with (S (Z.to_nat mi)) in Hlast by lia.
    destruct Hlast as (last & Hl & Hdl).
    exists dl, log, last. rewrite Hrun.
    split; [now replace (0 + Z.of_nat (Z.to_nat (mi + 1))) with (mi + 1) by lia|].
    split; [lia|]. split; assumption.
Qed.

(** C3.  When [refine] returns "Converged" after [niter] commits, the
    instance is the one those commits left, [prev], touched only by the
    final classification: the candidate [cand] of that classification,
    whose distance to the committed mask is [dfinal <= target_d], is not
    committed.  The mask, the fitted spline, its in-sample predictions
    and every attribute other than the cached residual statistic are
    those of [prev]; the mask is the initial one when [niter = 0] and
    otherwise the one that the previous iteration's [replace_mask]
    committed. *)
Theorem refine_converged_discards_candidate (td mi : Z)
    (self self' : SplineModel F) (res : FitResult) (log : list event) :
  refine td mi self = Ok (res, self', log) ->
  status res = 0 ->
  exists (prev : SplineModel F) (cand : list bool),
    advance (Z.to_nat (niter res)) self = Ok prev /\
    classify prev = Ok (cand, self', [Classified]) /\
    same_fit prev self' /\
    w self' = w prev /\
    dist cand (asarray_bool (w prev)) = dfinal res /\
    dfinal res <= td /\
    calls Fitted log = niter res /\
    (niter res = 0 -> w self' = w self) /\
    (0 < niter res ->
     exists (before mid : SplineModel F) (cand0 : list bool),
       advance (Z.to_nat (niter res - 1)) self = Ok before /\
       classify before = Ok (cand0, mid, [Classified]) /\
       replace_mask (asarray_float cand0) mid = Ok (tt, prev, [Fitted]) /\
       w self' = asarray_float cand0).
Proof.
  intros Hrun Hst. rewrite refine_eq in Hrun.
  destruct (0 <=? td); [|discriminate].
  destruct (0 <? mi); [|discriminate].
  destruct (refine_loop_inv _ _ _ _ _ _ _ _ Hrun)
    as [(k & prev & cand & Hk & -> & Hadv & Hall & Hcl & Hle & _ & Hnf)
       |(dl & -> & _)]; [|discriminate].
  simpl in *. clear Hst.
  pose proof (inlier_predicate_frame _ _ _ _ _ _ _ _ Hcl) as (_ & Hsame & _).
  assert (Hw : w self' = w prev) by (symmetry; apply Hsame).
  rewrite Z.add_0_l. exists prev, cand. rewrite Nat2Z.id.
  split; [exact Hadv|]. split; [exact Hcl|]. split; [exact Hsame|].
  split; [exact Hw|]. split; [now rewrite Hw|]. split; [exact Hle|].
  split; [lia|]. split.
  - intros Hz. assert (k = O) as -> by lia.
    injection Hadv as <-. exact Hw.
  - intros Hpos. destruct k as [|k]; [lia|].
    replace (Z.to_nat (Z.of_nat (S k) - 1)) with k by lia.
    rewrite advance_snoc in Hadv.
    destruct (advance k self) as [before|] eqn:Hb; [|discriminate].
    unfold_method.
    destruct (commit_inv _ _ Hadv) as (cand0 & mid & Hc0 & Hr0 & Hw0).
    exists before, mid, cand0. repeat split; auto. now rewrite Hw.
Qed.

(** C9.  When [refine] has returned "Converged", calling it again with
    the same arguments and nothing changed in between returns
    "Converged" with [niter = 0] and the same final distance after one
    classification, and leaves the instance as it is. *)
Theorem refine_again_converged_at_zero (td mi : Z)
    (self self' : SplineModel F) (res : FitResult) (log : list event) :
  refine td mi self = Ok (res, self', log) ->
  status res = 0 ->
  refine td mi self'
  = Ok (MkFitResult 0 "Converged" 0 (dfinal res), self', [Classified]).
Proof.
  intros Hrun Hst. rewrite refine_eq in Hrun |- *.
  destruct (Z.leb_spec 0 td) as [Htd|]; [|discriminate].
  destruct (Z.ltb_spec 0 mi) as [Hmi|]; [|discriminate].
  destruct (refine_loop_inv _ _ _ _ _ _ _ _ Hrun)
    as [(k & prev & cand & Hk & -> & Hadv & Hall & Hcl & Hle & _)
       |(dl & -> & _)]; [|discriminate].
  simpl. clear Hst.
  pose proof (inlier_predicate_frame _ _ _ _ _ _ _ _ Hcl)
    as (_ & (Ht & Hy & _) & _).
  unfold classify in Hcl.
  apply inlier_predicate_again in Hcl. rewrite Ht, Hy in Hcl.
  replace (Z.to_nat (mi + 1)) with (S (Z.to_nat mi)) by lia.
  rewrite refine_loop_S. unfold classify. rewrite Hcl. simpl.
  apply Z.leb_le in Hle. now rewrite Hle.
Qed.

Lemma init_eq (t0 y0 : list F) (nknots : Z) (ko : option (list F))
    (w0 : option (list F)) (args : gmap string pyval) :
  init t0 y0 nknots ko w0 args =
  if (length t0 =? length y0)%nat then
    if nknots =? 0 then Err ZeroDivisionError
    else
      let N := Z.of_nat (length y0) / nknots in
      match (match ko with
             | None => slice_from_step t0 (Z.max (N / 2) 1) N
             | Some k => Ok k
             end) with
      | Err e => Err e
      | Ok knots0 =>
          let winit := match w0 with
                       | None => ones (length t0)
                       | Some w1 => w1
                       end in
          if (length winit =? length t0)%nat then
            match LSQUnivariateSpline t0 y0 knots0 winit (init_kwargs args) with
            | Ok spr =>
                Ok {| t := t0; y := y0; knots := knots0; w := winit;
                      _kwargs_save := init_kwargs args; _spr := spr;
                      self_pred := map spr t0; _stats_dirty := true;
                      rmad := None |}
            | Err e => Err e
            end
          else Err AssertionError
      end
  else Err AssertionError.
Proof.
  unfold init, assert, floordiv. unfold_method.
  destruct (length t0 =? length y0)%nat; [|reflexivity].
  destruct (nknots =? 0); [reflexivity|].
  destruct (match ko with None => _ | Some k => _ end) as [knots0|];
    [|reflexivity].
  rewrite replace_mask_eq. simpl.
  destruct (length _ =? length t0)%nat; [|reflexivity].
  now destruct (LSQUnivariateSpline _ _ _ _ _).
Qed.

Lemma getitem_of_nat {A} (l : list A) (i : nat) :
  getitem l (Z.of_nat i) =
  match nth_error l i with
  | Some a => Ok a
  | None => Err IndexError
  end.
Proof.
  unfold getitem.
  destruct (Z.ltb_spec (Z.of_nat i) 0) as [|_]; [lia|].
  destruct (Z.ltb_spec (Z.of_nat i) 0) as [|_]; [lia|]. simpl.
  rewrite Nat2Z.id.
  destruct (Z.leb_spec (Z.of_nat (length l)) (Z.of_nat i)) as [Hge|Hlt].
  - assert (Hnone : nth_error l i = None) by (apply nth_error_None; lia).
    now rewrite Hnone.
  - reflexivity.
Qed.

Lemma mask_index_in_range (l : list bool) :
  Forall (in_range (length l)) (mask_index l).
Proof.
  apply List.Forall_forall. intros x Hx.
  pose proof (ascending_disjoint_shape _ _ (mask_index_ascending l)) as Hshape.
  rewrite List.Forall_forall in Hshape.
  destruct (Hshape x Hx) as (s & e & -> & _).
  apply mask_index_maximal in Hx. destruct Hx as (Hse & _).
  exists s, e. auto.
Qed.

Lemma knot_skip_eq (self : SplineModel F) (knot : F) (midx : list (list nat)) :
  Forall (in_range (length (t self))) midx ->
  knot_skip self knot midx = Ok (existsb (inside_interval self knot) midx).
Proof.
  induction 1 as [|x midx (s & e & -> & Hse) _ IH]; [reflexivity|].
  cbn [knot_skip existsb inside_interval].
  replace (Z.of_nat e - 1) with (Z.of_nat (e - 1)) by lia.
  rewrite !getitem_of_nat.
  destruct (nth_error (t self) s) as [lo|] eqn:Hlo;
    [|apply nth_error_None in Hlo; lia].
  destruct (nth_error (t self) (e - 1)) as [hi|] eqn:Hhi;
    [|apply nth_error_None in Hhi; lia].
  unfold_method.
  destruct (flt lo knot && flt knot hi); [reflexivity|exact IH].
Qed.

Lemma cure_loop_eq (self : SplineModel F) (midx : list (list nat)) :
  Forall (in_range (length (t self))) midx ->
  forall kts kt_new : list F,
    cure_loop self midx kts kt_new
    = Ok (kt_new ++
          List.filter
            (fun knot => negb (existsb (inside_interval self knot) midx)) kts).
Proof.
  intros Hr. induction kts as [|knot kts IH]; intros kt_new.
  - simpl. now rewrite app_nil_r.
  - cbn [cure_loop List.filter]. rewrite (knot_skip_eq _ _ _ Hr).
    unfold_method. rewrite IH.
    destruct (existsb _ midx); simpl; [reflexivity|].
    now rewrite <- app_assoc.
Qed.

Lemma cure_knots_eq (self : SplineModel F) :
  length (w self) = length (t self) ->
  cure_knots self =
  match init (t self) (y self) 23 (Some (List.filter (kept self) (knots self)))
          (Some (w self)) (_kwargs_save self) with
  | Ok new => Ok (new, self, [])
  | Err e => Err e
  end.
Proof.
  intros Hlen. unfold cure_knots. unfold_method.
  rewrite cure_loop_eq.
  2:{ rewrite <- Hlen. unfold asarray_bool.
      rewrite <- (length_map truthy). apply mask_index_in_range. }
  simpl. unfold kept.
  now destruct (init _ _ _ _ _ _).
Qed.

Lemma kept_spec (self : SplineModel F) (knot : F) :
  kept self knot = true <->
  ~ exists s e : nat,
      maximal_run (asarray_bool (w self)) s e /\ strictly_inside self knot s e.
Proof.
  unfold kept. rewrite negb_true_iff.
  pose proof (ascending_disjoint_shape _ _
                (mask_index_ascending (asarray_bool (w self)))) as Hshape.
  rewrite List.Forall_forall in Hshape.
  split.
  - intros Hno (s & e & Hmax & lo & hi & Hlo & Hhi & Hl & Hh).
    apply mask_index_maximal in Hmax.
    assert (Hex : existsb (inside_interval self knot)
                    (mask_index (asarray_bool (w self))) = true).
    { apply existsb_exists. exists [s; e]. split; [exact Hmax|].
      simpl. rewrite Hlo, Hhi, Hl, Hh. reflexivity. }
    congruence.
  - intros Hno. apply not_true_is_false. intros Hex.
    apply existsb_exists in Hex. destruct Hex as (x & Hx & Hin).
    destruct (Hshape x Hx) as (s & e & -> & _).
    apply Hno. exists s, e. split; [now apply mask_index_maximal|].
    simpl in Hin.
    destruct (nth_error (t self) s) as [lo|] eqn:Hlo; [|discriminate].
    destruct (nth_error (t self) (e - 1)) as [hi|] eqn:Hhi; [|discriminate].
    apply andb_true_iff in Hin. destruct Hin as [Hl Hh].
    exists lo, hi. repeat split; assumption.
Qed.

Lemma cure_knots_incl (self new self' : SplineModel F) (log : list event) :
  length (w self) = length (t self) ->
  cure_knots self = Ok (new, self', log) ->
  incl (knots new) (knots self).
Proof.
  intros Hlen. rewrite (cure_knots_eq _ Hlen). rewrite init_eq.
  destruct (length (t self) =? length (y self))%nat; [|discriminate].
  simpl. rewrite Hlen, Nat.eqb_refl.
  destruct (LSQUnivariateSpline _ _ _ _ _) as [spr|]; [|discriminate].
  intros [= <- <- <-] knot Hin. simpl in Hin.
  apply filter_In in Hin. tauto.
Qed.

(** C6.  On an instance whose mask is as long as its time axis,
    [cure_knots] leaves the instance as it is and, when it returns, the
    new instance has the same [t], [y] and [w]; its knots are the knots
    of the instance, in their order, without those that lie strictly
    inside the span [(t[s], t[e - 1])] of a maximal run [s, e) of
    outliers of the current mask: a knot is among them exactly when it is
    a knot of the instance and no run spans it.  So they are included in
    the knots of the instance.  It returns whenever the kernel fits the
    pruned knots. *)
Theorem cure_knots_prunes (self : SplineModel F) :
  length (w self) = length (t self) ->
  (forall (new self' : SplineModel F) (log : list event),
      cure_knots self = Ok (new, self', log) ->
      self' = self /\
      t new = t self /\ y new = y self /\ w new = w self /\
      _kwargs_save new = init_kwargs (_kwargs_save self) /\
      knots new = List.filter (kept self) (knots self) /\
      (forall knot : F,
          In knot (knots new) <->
          In knot (knots self) /\
          ~ exists s e : nat,
              maximal_run (asarray_bool (w self)) s e /\
              strictly_inside self knot s e) /\
      incl (knots new) (knots self)) /\
  (length (t self) = length (y self) ->
   forall spr : F -> F,
     LSQUnivariateSpline (t self) (y self)
       (List.filter (kept self) (knots self)) (w self)
       (init_kwargs (_kwargs_save self)) = Ok spr ->
     exists new : SplineModel F, cure_knots self = Ok (new, self, [])).
Proof.
  intros Hlen. rewrite (cure_knots_eq _ Hlen). rewrite init_eq.
  split.
  - intros new self' log Hrun.
    destruct (length (t self) =? length (y self))%nat; [|discriminate].
    simpl in Hrun. rewrite Hlen, Nat.eqb_refl in Hrun.
    destruct (LSQUnivariateSpline _ _ _ _ _) as [spr|]; [|discriminate].
    injection Hrun as <- <- <-. simpl.
    do 6 (split; [reflexivity|]).
    split.
    + intros knot. rewrite filter_In. rewrite kept_spec. reflexivity.
    + intros knot Hin. apply filter_In in Hin. tauto.
  - intros Hty spr Hfit.
    apply Nat.eqb_eq in Hty, Hlen. rewrite Hty. simpl.
    rewrite Hlen, Hfit. eauto.
Qed.

Lemma init_kwargs_idem (args : gmap string pyval) :
  init_kwargs (init_kwargs args) = init_kwargs args.
Proof.
  unfold init_kwargs. apply map_eq. intros i.
  destruct (decide (i = "k"%string)) as [->|Hne].
  - now rewrite !lookup_insert_eq.
  - rewrite !lookup_insert_ne by congruence.
    rewrite !lookup_union. rewrite lookup_insert_ne by congruence.
    rewrite lookup_union.
    destruct (args !! i), (({["ext"%string := PyStr "const"]} : gmap string pyval) !! i);
      reflexivity.
Qed.

Lemma commit_frame (self self2 : SplineModel F) :
  commit self = Ok self2 ->
  same_series self self2 /\ length (w self2) = length (t self2).
Proof.
  intros Hc. destruct (commit_inv _ _ Hc) as (cand & self1 & Hcl & Hr & _).
  destruct (inlier_predicate_frame _ _ _ _ _ _ _ _ Hcl)
    as (_ & (Ht & Hy & Hk & _ & Hkw & _) & _).
  rewrite replace_mask_eq in Hr.
  destruct (Nat.eqb_spec (length (asarray_float cand)) (length (t self1)))
    as [Hlen|]; [|discriminate].
  destruct (LSQUnivariateSpline _ _ _ _ _); [|discriminate].
  injection Hr as <-. unfold same_series. simpl.
  repeat split; congruence.
Qed.

Lemma advance_frame (k : nat) :
  forall self self' : SplineModel F,
    advance k self = Ok self' -> same_series self self'.
Proof.
  induction k as [|k IH]; intros self self' Hadv.
  - injection Hadv as <-. repeat split.
  - simpl in Hadv. destruct (commit self) as [self2|] eqn:Hc; [|discriminate].
    destruct (commit_frame _ _ Hc) as ((Ht & Hy & Hk & Hkw) & _).
    destruct (IH _ _ Hadv) as (Ht' & Hy' & Hk' & Hkw').
    repeat split; congruence.
Qed.

Lemma refine_frame (td mi : Z) (self self' : SplineModel F)
    (res : FitResult) (log : list event) :
  refine td mi self = Ok (res, self', log) -> same_series self self'.
Proof.
  intros Hrun. rewrite refine_eq in Hrun.
  destruct (0 <=? td); [|discriminate].
  destruct (0 <? mi); [|discriminate].
  destruct (refine_loop_inv _ _ _ _ _ _ _ _ Hrun)
    as [(k & prev & cand & _ & _ & Hadv & _ & Hcl & _)
       |(dl & _ & Hadv & _)].
  - destruct (advance_frame _ _ _ Hadv) as (Ht & Hy & Hk & Hkw).
    destruct (inlier_predicate_frame _ _ _ _ _ _ _ _ Hcl)
      as (_ & (Ht' & Hy' & Hk' & _ & Hkw' & _) & _).
    repeat split; congruence.
  - exact (advance_frame _ _ _ Hadv).
Qed.

(** C10.  [__init__] divides by [nknots] before it looks at
    [knots_override]: with [nknots = 0] every construction fails, by
    [ZeroDivisionError] as soon as [t] and [y] have one length (the
    assertions on the shapes come first), whether or not an override is
    given.  With an override and [nknots >= 1] the knots of the instance
    are the override, and the construction does not depend on
    [nknots]. *)
Theorem init_divides_before_override (t0 y0 : list F)
    (ko w0 : option (list F)) (args : gmap string pyval) :
  init t0 y0 0 ko w0 args
  = (if (length t0 =? length y0)%nat then Err ZeroDivisionError
     else Err AssertionError) /\
  (length t0 = length y0 -> init t0 y0 0 ko w0 args = Err ZeroDivisionError) /\
  (forall (nknots : Z) (override : list F) (self : SplineModel F),
      1 <= nknots ->
      init t0 y0 nknots (Some override) w0 args = Ok self ->
      knots self = override) /\
  (forall (nknots nknots' : Z) (override : list F),
      1 <= nknots -> 1 <= nknots' ->
      init t0 y0 nknots (Some override) w0 args
      = init t0 y0 nknots' (Some override) w0 args).
Proof.
  split; [|split; [|split]].
  - rewrite init_eq. now destruct (length t0 =? length y0)%nat.
  - intros Hlen. rewrite init_eq. apply Nat.eqb_eq in Hlen. now rewrite Hlen.
  - intros nknots override self Hn. rewrite init_eq.
    destruct (length t0 =? length y0)%nat; [|discriminate].
    destruct (Z.eqb_spec nknots 0) as [|_]; [lia|]. simpl.
    destruct (length _ =? length t0)%nat; [|discriminate].
    destruct (LSQUnivariateSpline _ _ _ _ _); [|discriminate].
    now intros [= <-].
  - intros nknots nknots' override Hn Hn'. rewrite !init_eq.
    destruct (Z.eqb_spec nknots 0) as [|_]; [lia|].
    destruct (Z.eqb_spec nknots' 0) as [|_]; [lia|]. reflexivity.
Qed.

End ModelFacts.

(** ** Properties of aggregate.py *)

Section AggregateFacts.
Context {F : Type} `{FloatOps F} `{Kernel F}.

Ltac unfold_result :=
  unfold mbind, mret, result_bind, result_ret, Py.bind in *.

Lemma shifted_init_inv (model m0 : SplineModel F) (i : Z) (scale : F) :
  shifted_init model i scale = Ok m0 ->
  w m0 = ones (length (t model)) /\
  _kwargs_save m0 = init_kwargs (_kwargs_save model) /\
  t m0 = t model /\ y m0 = y model /\
  knots m0 = shifted_knots model i scale.
Proof.
  unfold shifted_init. rewrite init_eq.
  destruct (length (t model) =? length (y model))%nat; [|discriminate].
  simpl.
  destruct (length _ =? length (t model))%nat; [|discriminate].
  destruct (LSQUnivariateSpline _ _ _ _ _); [|discriminate].
  intros [= <-]. simpl. repeat split.
Qed.

(** C1, as the code has it.  Every member of the ensemble is constructed
    without a mask, so with the default mask of ones whatever the mask of
    the base model is, on the series of the base model, with its knots
    shifted and with its fit configuration (which the constructor leaves
    as it is when it came out of a constructor); each of the two loops
    appends, for each index in order, such an instance after its own
    [refine]. *)
Theorem shifted_members_start_unmasked (model : SplineModel F)
    (args : refine_args) (scale : F) :
  (forall (i : Z) (m0 : SplineModel F),
      shifted_init model i scale = Ok m0 ->
      w m0 = ones (length (t model)) /\
      t m0 = t model /\ y m0 = y model /\
      knots m0 = shifted_knots model i scale /\
      _kwargs_save m0 = init_kwargs (_kwargs_save model) /\
      (forall args0 : gmap string pyval,
          _kwargs_save model = init_kwargs args0 ->
          _kwargs_save m0 = _kwargs_save model)) /\
  (forall (indices : list Z) (acc ms : list (SplineModel F)),
      shifted_loop model args scale indices acc = Ok ms ->
      exists members : list (SplineModel F),
        ms = acc ++ members /\
        Forall2
          (fun (i : Z) (m : SplineModel F) =>
             exists (m0 : SplineModel F) (r : FitResult) (log : list event),
               shifted_init model i scale = Ok m0 /\
               w m0 = ones (length (t model)) /\
               refine_with args m0 = Ok (r, m, log))
          indices members).
Proof.
  split.
  - intros i m0 Hinit.
    destruct (shifted_init_inv _ _ _ _ Hinit) as (Hw & Hkw & Ht & Hy & Hk).
    repeat split; auto.
    intros args0 Hbase. rewrite Hkw, Hbase. apply init_kwargs_idem.
  - induction indices as [|i indices IH]; intros acc ms Hloop.
    + injection Hloop as <-. exists []. split; [now rewrite app_nil_r|constructor].
    + simpl in Hloop. unfold shifted_model in Hloop. unfold_result.
      destruct (shifted_init model i scale) as [m0|] eqn:Hinit; [|discriminate].
      destruct (refine_with args m0) as [[[r m] log]|] eqn:Hrun; [|discriminate].
      simpl in Hloop.
      destruct (IH _ _ Hloop) as (members & -> & Hall).
      exists (m :: members). split; [now rewrite <- app_assoc|].
      constructor; [|exact Hall].
      exists m0, r, log. split; [exact Hinit|]. split; [|exact Hrun].
      apply (shifted_init_inv _ _ _ _ Hinit).
Qed.

(** The final model is built on the knots that [__init__] derives from
    its default [nknots = 23], whatever the knots of the base model
    are. *)
Lemma aggregate_final_knots (model m : SplineModel F) (d : Z) (p : F)
    (args : refine_args) :
  knot_shift_aggregate model d p args = Ok m ->
  let N := Z.of_nat (length (y model)) / 23 in
  exists default : list F,
    slice_from_step (t model) (Z.max (N / 2) 1) N = Ok default /\
    incl (knots m) default.
Proof.
  intros Hagg N. revert Hagg.
  unfold knot_shift_aggregate, assert. unfold_result.
  destruct (0 <? d); [|discriminate].
  destruct (flt (of_int 0) p && flt p (of_int 1)); [|discriminate].
  destruct (shift_scales model d p) as [scales|]; [|discriminate].
  destruct (shifted_loop _ _ _ _ []) as [ms1|]; [|discriminate].
  destruct (shifted_loop _ _ _ _ ms1) as [ms2|]; [|discriminate].
  destruct (consensus _ ms2) as [w1|]; [|discriminate].
  destruct (init _ _ _ None _ _) as [model_new|] eqn:Hinit; [|discriminate].
  destruct (cure_knots model_new) as [[[model_agg self'] log]|] eqn:Hcure;
    [|discriminate].
  simpl.
  destruct (refine_with args model_agg) as [[[r m'] log']|] eqn:Hrun;
    [|discriminate].
  simpl. intros [= <-].
  rewrite init_eq in Hinit.
  destruct (length (t model) =? length (y model))%nat; [|discriminate].
  simpl in Hinit. fold N in Hinit.
  destruct (slice_from_step (t model) (Z.max (N / 2) 1) N) as [default|];
    [|discriminate].
  destruct (Nat.eqb_spec (length w1) (length (t model))) as [Hlen|];
    [|discriminate].
  destruct (LSQUnivariateSpline _ _ _ _ _) as [spr|]; [|discriminate].
  injection Hinit as <-.
  exists default. split; [reflexivity|].
  match type of Hcure with
  | cure_knots ?new = _ =>
      pose proof (cure_knots_incl new _ _ _ Hlen Hcure) as Hincl
  end.
  simpl in Hincl.
  destruct (refine_frame _ _ _ _ _ _ Hrun) as (_ & _ & Hk & _).
  rewrite <- Hk. exact Hincl.
Qed.

(** Below 23 samples the final construction has a zero step: the
    aggregate never returns. *)
Lemma aggregate_short_series (model m : SplineModel F) (d : Z) (p : F)
    (args : refine_args) :
  (length (y model) < 23)%nat ->
  knot_shift_aggregate model d p args <> Ok m.
Proof.
  intros Hshort Hrun.
  destruct (aggregate_final_knots _ _ _ _ _ Hrun) as (default & Hslice & _).
  assert (HN : Z.of_nat (length (y model)) / 23 = 0)
    by (apply Z.div_small; lia).
  rewrite HN in Hslice. discriminate.
Qed.

(** C8, as the code has it.  The package raises Python's own exceptions.
    [__init__] raises [AssertionError] when [t] and [y] differ in length,
    [ZeroDivisionError] when [nknots = 0], and, when no override is
    given, [ValueError] when the derived step [len(y) // nknots] is 0;
    [refine] raises [AssertionError] for a negative [target_d] or a
    non-positive [maxiter]; [knot_shift_aggregate] raises
    [AssertionError] for [duplicates <= 0] or a proximity factor that
    fails [0 < p < 1].  Nothing checks the sign of [nknots]. *)
Theorem invalid_parameters_raise :
  (forall (t0 y0 : list F) (nknots : Z) (ko w0 : option (list F))
          (args : gmap string pyval),
      length t0 <> length y0 ->
      init t0 y0 nknots ko w0 args = Err AssertionError) /\
  (forall (t0 y0 : list F) (ko w0 : option (list F))
          (args : gmap string pyval),
      length t0 = length y0 ->
      init t0 y0 0 ko w0 args = Err ZeroDivisionError) /\
  (forall (t0 y0 : list F) (nknots : Z) (w0 : option (list F))
          (args : gmap string pyval),
      length t0 = length y0 -> nknots <> 0 ->
      Z.of_nat (length y0) / nknots = 0 ->
      init t0 y0 nknots None w0 args = Err ValueError) /\
  (forall (td mi : Z) (self : SplineModel F),
      td < 0 \/ mi <= 0 -> refine td mi self = Err AssertionError) /\
  (forall (model : SplineModel F) (d : Z) (p : F) (args : refine_args),
      d <= 0 \/ flt (of_int 0) p && flt p (of_int 1) = false ->
      knot_shift_aggregate model d p args = Err AssertionError).
Proof.
  repeat split.
  - intros t0 y0 nknots ko w0 args Hne. rewrite init_eq.
    apply Nat.eqb_neq in Hne. now rewrite Hne.
  - intros t0 y0 ko w0 args Hlen. rewrite init_eq.
    apply Nat.eqb_eq in Hlen. now rewrite Hlen.
  - intros t0 y0 nknots w0 args Hlen Hn HN. rewrite init_eq.
    apply Nat.eqb_eq in Hlen. rewrite Hlen.
    apply Z.eqb_neq in Hn. rewrite Hn. simpl. rewrite HN. reflexivity.
  - intros td mi self Hbad. rewrite refine_eq.
    destruct (Z.leb_spec 0 td) as [Htd|]; [|reflexivity].
    destruct (Z.ltb_spec 0 mi) as [Hmi|]; [lia|reflexivity].
  - intros model d p args Hbad. unfold knot_shift_aggregate, assert.
    unfold_result.
    destruct (Z.ltb_spec 0 d) as [Hd|]; [|reflexivity].
    destruct Hbad as [|Hp]; [lia|]. now rewrite Hp.
Qed.

End AggregateFacts.

(** ** The shifts of aggregate.py in exact arithmetic *)

Section ExactShifts.
Import Exact.











End ExactShifts.

(** ** Concrete runs *)

Section Runs.
Import Binary64 Examples.

Lemma fresh_exceeds_twice : all_exceed 0 2 fresh.
Proof.
  intros [|[|j]] Hj; [| |lia].
  - exists (after 0), 1%Z. repeat split; vm_compute; reflexivity.
  - exists (after 1), 1%Z. repeat split; vm_compute; reflexivity.
Qed.

(** [fresh.refine(0, 50)] converges in iteration 2, after the distances
    1, 1 and 0; [fresh.refine(0, 1)] runs out of iterations after two
    classifications. *)
Lemma refine_stops_exactly_witness :
  (exists (self' : SplineModel float) (log : list event),
      refine 0 50 fresh = Ok (MkFitResult 0 "Converged" 2 0, self', log)) /\
  (exists (dl : Z) (log : list event) (last : SplineModel float),
      refine 0 1 fresh
      = Ok (MkFitResult 1 "Maximum iteration limit exceeded" 2 dl,
            after 2, log) /\
      calls Classified log = 2 /\
      advance 1 fresh = Ok last /\ candidate_distance last = Ok dl).
Proof.
  split.
  - apply (proj1 (refine_stops_exactly 0 50 fresh ltac:(lia) ltac:(lia))
             2%nat 0%Z).
    split; [lia|]. split; [exact fresh_exceeds_twice|].
    exists (after 2). repeat split; [vm_compute; reflexivity ..|lia].
  - apply (proj2 (proj2 (refine_stops_exactly 0 1 fresh ltac:(lia) ltac:(lia)))
             fresh_exceeds_twice (after 2)).
    vm_compute. reflexivity.
Defined.

(** [fresh.refine(1, 50)] converges at once on a candidate at distance 1
    from the mask of ones: the mask of ones stays. *)
Lemma refine_converged_discards_candidate_witness :
  refine 1 50 fresh
  = Ok (MkFitResult 0 "Converged" 0 1, loosely_refined, [Classified]) /\
  w loosely_refined = w fresh /\
  exists cand : list bool,
    classify fresh = Ok (cand, loosely_refined, [Classified]) /\
    dist cand (asarray_bool (w fresh)) = 1 /\
    same_fit fresh loosely_refined.
Proof.
  assert (Hrun : refine 1 50 fresh
                 = Ok (MkFitResult 0 "Converged" 0 1, loosely_refined,
                       [Classified])) by (vm_compute; reflexivity).
  destruct (refine_converged_discards_candidate 1 50 fresh loosely_refined
              _ _ Hrun eq_refl)
    as (prev & cand & Hadv & Hcl & Hsame & Hw & Hd & Hle & Hnf & Hzero & _).
  injection Hadv as <-.
  split; [exact Hrun|]. split; [exact (Hzero eq_refl)|].
  exists cand. split; [exact Hcl|]. split; [exact Hd|exact Hsame].
Defined.

(** [refined] came out of a converged [refine(0, 50)]; refining it again
    converges in iteration 0 and changes nothing. *)
Lemma refine_again_converged_at_zero_witness :
  refine 0 50 refined
  = Ok (MkFitResult 0 "Converged" 0 0, refined, [Classified]).
Proof.
  apply (refine_again_converged_at_zero 0 50 fresh refined
           (MkFitResult 0 "Converged" 2 0)
           [Classified; Fitted; Classified; Fitted; Classified]).
  - vm_compute. reflexivity.
  - reflexivity.
Defined.

(** The run of outliers over the samples 2 .. 5 spans [(2, 5)]: the knots
    3 and 4 go, the knot 5 on its edge stays. *)
Lemma cure_knots_prunes_witness :
  cure_knots masked = Ok (cured, masked, []) /\
  mask_index (asarray_bool (w masked)) = [[2; 6]]%nat /\
  knots masked = [1.5; 3; 4; 5; 7.5]%float /\
  knots cured = [1.5; 5; 7.5]%float /\
  incl (knots cured) (knots masked).
Proof.
  assert (Hlen : length (w masked) = length (t masked))
    by (vm_compute; reflexivity).
  assert (Hrun : cure_knots masked = Ok (cured, masked, []))
    by (vm_compute; reflexivity).
  destruct (proj1 (cure_knots_prunes masked Hlen) cured masked [] Hrun)
    as (_ & _ & _ & _ & _ & Hk & _ & Hincl).
  split; [exact Hrun|]. split; [vm_compute; reflexivity|].
  split; [vm_compute; reflexivity|].
  split; [rewrite Hk; vm_compute; reflexivity|exact Hincl].
Defined.

(** C1 fails on the code: [refined] has masked its last two samples, and
    the first member that [knot_shift_aggregate(refined, 1, 0.5)]
    constructs starts from the mask of ones. *)
Lemma members_ignore_base_mask :
  shift_scales refined 1 0.5%float = Ok (1%float, 1%float) /\
  shifted_init refined (-1) 1%float = Ok first_member /\
  asarray_bool (w refined)
  = [true; true; true; true; true; true; true; true; false; false] /\
  asarray_bool (w first_member)
  = [true; true; true; true; true; true; true; true; true; true].
Proof. repeat split; vm_compute; reflexivity. Qed.

(** C8 fails on the code: a negative knot count is accepted.  With ten
    samples and [nknots = -1] the step is [-10] and the slice
    [t[1::-10]] is the one knot [t[1]]. *)
Lemma negative_knot_count_accepted :
  init ts ys (-1) None None ∅ = Ok negative_count /\
  knots negative_count = [1%float] /\
  w negative_count = ones 10.
Proof. repeat split; vm_compute; reflexivity. Qed.

(** C2 on the code.  [refined] has ten samples and the knots [2; 7]:
    the final construction of [knot_shift_aggregate] derives its knots
    from the default [nknots = 23], a zero step, and raises.
    [long_refined] has 47 samples and the knots [11; 34]: the aggregate
    comes back on the 23 default knots [1; 3; ...; 45]. *)
Theorem aggregate_drops_base_knots :
  knots refined = [2; 7]%float /\
  knot_shift_aggregate refined 1 0.5%float no_args = Err ValueError /\
  knots long_refined = [11; 34]%float /\
  knot_shift_aggregate long_refined 1 0.5%float no_args = Ok long_aggregate /\
  knots long_aggregate
  = [1; 3; 5; 7; 9; 11; 13; 15; 17; 19; 21; 23; 25; 27; 29; 31; 33; 35;
     37; 39; 41; 43; 45]%float.
Proof. repeat split; vm_compute; reflexivity. Qed.

(** C7 on the code, in binary64.  With [p = 2 ** -60] the difference
    [1.0 - p] rounds to [1.0]: the assertion [0.0 < p < 1.0] passes, and
    the two shifted knot sets of [refined] (domain [0, 9], knots [2; 7])
    are [0; 5] and [4; 9], whose knots 0 and 9 are the ends of the
    domain; the kernel refuses them.  With the defaults [d = 3] and
    [p = 0.001] the extreme left shift puts the first knot at less than
    [p] times the gap from the start of the domain. *)
Theorem shifted_knots_reach_boundary :
  flt 0%float 0x1p-60%float && flt 0x1p-60%float 1%float = true /\
  fsub 1%float 0x1p-60%float = 1%float /\
  knots refined = [2; 7]%float /\
  getitem (t refined) 0 = Ok 0%float /\
  getitem (t refined) (-1) = Ok 9%float /\
  shifted_knot_sets refined 1 0x1p-60%float
  = Ok [[0; 5]; [4; 9]]%float /\
  flt 0%float 0%float = false /\ flt 9%float 9%float = false /\
  knot_shift_aggregate refined 1 0x1p-60%float no_args
  = Err (KernelError 2) /\
  shifted_knot_sets refined 3 0x1.0624dd2f1a9fcp-10%float = Ok default_sets /\
  nth_error default_sets 0 = Some [default_first_knot; default_second_knot] /\
  flt 0%float default_first_knot = true /\
  flt (fsub default_first_knot 0%float)
      (fmul 0x1.0624dd2f1a9fcp-10%float (fsub 2%float 0%float)) = true.
Proof. repeat split; vm_compute; reflexivity. Qed.

End Runs.

(** ** Invariants of spline_model.py *)

Section InvariantFacts.
Context {F : Type} `{FloatOps F} `{Kernel F}.

Ltac unfold_method :=
  unfold mbind, method_bind, mret, method_ret, get, put, emit, lift,
         result_bind, result_ret, Py.bind in *.

Lemma elementwise_ok {A B C} (f : A -> B -> C) (a : list A) :
  forall b : list B,
    length a = length b ->
    exists r : list C, elementwise f a b = Ok r /\ length r = length a.
Proof.
  induction a as [|x a IH]; intros [|y0 b] Hlen; simpl in *; try discriminate.
  - exists []. auto.
  - destruct (IH b ltac:(lia)) as (r & -> & Hr).
    exists (f x y0 :: r). unfold_method. simpl. auto.
Qed.

Lemma select_ok {A} (a : list A) :
  forall bm : list bool,
    length a = length bm -> exists r : list A, select a bm = Ok r.
Proof.
  induction a as [|x a IH]; intros [|b bm] Hlen; simpl in *; try discriminate.
  - exists []. auto.
  - destruct (IH bm ltac:(lia)) as (r & ->). unfold_method. eauto.
Qed.

Lemma select_length {A B} (a : list A) :
  forall (b : list B) (bm : list bool) (ra : list A) (rb : list B),
    select a bm = Ok ra -> select b bm = Ok rb -> length ra = length rb.
Proof.
  induction a as [|x a IH]; intros [|y0 b] [|c bm] ra rb Ha Hb;
    simpl in *; try discriminate.
  - injection Ha as <-. injection Hb as <-. reflexivity.
  - unfold_method.
    destruct (select a bm) as [ra'|] eqn:Hra; [|discriminate].
    destruct (select b bm) as [rb'|] eqn:Hrb; [|discriminate].
    injection Ha as <-. injection Hb as <-.
    pose proof (IH _ _ _ _ Hra Hrb). destruct c; simpl; lia.
Qed.

(** On a well-formed instance the classification does not raise. *)
Lemma classify_total (self : SplineModel F) :
  well_formed self ->
  exists (cand : list bool) (self1 : SplineModel F),
    classify self = Ok (cand, self1, [Classified]) /\
    length cand = length (t self) /\
    same_fit self self1 /\ well_formed self1.
Proof.
  intros (Hy & Hw & Hpred & Hstat & Hk & Hext).
  unfold classify, inlier_predicate. unfold_method.
  destruct (elementwise_ok fsub (y self) (map (_spr self) (t self)))
    as (diffs & Hdiffs & Hdl); [now rewrite length_map|].
  destruct (_stats_dirty self) eqn:Hdirty.
  - destruct (select_ok (y self) (asarray_bool (w self))) as (ysel & Hys).
    { unfold asarray_bool. rewrite length_map. lia. }
    destruct (select_ok (self_pred self) (asarray_bool (w self)))
      as (psel & Hps).
    { unfold asarray_bool. rewrite Hpred, !length_map. lia. }
    rewrite Hys, Hps.
    destruct (elementwise_ok fsub ysel psel) as (res & -> & _);
      [exact (select_length _ _ _ _ _ Hys Hps)|].
    simpl. unfold call. simpl. rewrite Hdiffs. simpl.
    eexists _, _. split; [reflexivity|].
    split; [rewrite !length_map; lia|].
    split; [repeat split|].
    repeat split; simpl; auto; discriminate.
  - unfold call. rewrite Hdiffs.
    destruct (rmad self) as [r|] eqn:Hr; [|now destruct (Hstat eq_refl)].
    simpl. eexists _, _. split; [reflexivity|].
    split; [rewrite !length_map; lia|].
    split; [repeat split|].
    repeat split; auto; intros _; rewrite Hr; discriminate.
Qed.

Lemma boolean_asarray_float (cand : list bool) :
  boolean_mask (asarray_float cand).
Proof.
  unfold boolean_mask, asarray_float. apply List.Forall_forall.
  intros x Hx. apply in_map_iff in Hx. destruct Hx as ([|] & <- & _); auto.
Qed.

Lemma same_fit_series (a b : SplineModel F) : same_fit a b -> same_series a b.
Proof. intros (Ht & Hy & Hk & _ & Hkw & _). repeat split; assumption. Qed.

Lemma same_series_trans (a b c : SplineModel F) :
  same_series a b -> same_series b c -> same_series a c.
Proof.
  intros (Ht & Hy & Hk & Hkw) (Ht' & Hy' & Hk' & Hkw').
  repeat split; congruence.
Qed.

Lemma kernel_raises_series (e : exn) (a b : SplineModel F) :
  same_series a b -> kernel_raises e b -> kernel_raises e a.
Proof.
  intros (Ht & Hy & Hk & Hkw) (w' & Hw'). exists w'.
  now rewrite Ht, Hy, Hk, Hkw.
Qed.

(** Committing a candidate on a well-formed instance: the kernel is the
    only thing that can raise. *)
Lemma replace_candidate_total (self1 : SplineModel F) (cand : list bool) :
  well_formed self1 -> length cand = length (t self1) ->
  match replace_mask (asarray_float cand) self1 with
  | Ok (_, self2, log2) =>
      log2 = [Fitted] /\ well_formed self2 /\ same_series self1 self2 /\
      w self2 = asarray_float cand
  | Err e => kernel_raises e self1
  end.
Proof.
  intros (Hy & Hw & Hpred & Hstat & Hk & Hext) Hlen.
  rewrite replace_mask_eq.
  unfold asarray_float at 1. rewrite length_map.
  apply Nat.eqb_eq in Hlen. rewrite Hlen.
  destruct (LSQUnivariateSpline _ _ _ _ _) as [spr|e] eqn:Hfit.
  - split; [reflexivity|]. split; [|split; [repeat split|reflexivity]].
    repeat split; simpl; auto; try discriminate.
    all: unfold asarray_float; rewrite length_map; now apply Nat.eqb_eq.
  - exists (asarray_float cand). exact Hfit.
Qed.

Lemma refine_loop_total (td : Z) (r : nat) :
  forall (n : Z) (dx : option Z) (self : SplineModel F),
    well_formed self -> (r = O -> dx <> None) ->
    match refine_loop td r n dx self with
    | Ok (res, self', log) =>
        well_formed self' /\ same_series self self' /\
        n <= niter res /\
        calls Fitted log = niter res - n /\
        (niter res = n -> w self' = w self) /\
        (n < niter res -> boolean_mask (w self'))
    | Err e => kernel_raises e self
    end.
Proof.
  induction r as [|r IH]; intros n dx self Hwf Hdx.
  - destruct dx as [d|]; [|now destruct (Hdx eq_refl)].
    simpl. unfold_method. simpl.
    split; [exact Hwf|]. split; [repeat split|].
    split; [lia|]. split; [lia|]. split; [reflexivity|lia].
  - rewrite refine_loop_S.
    destruct (classify_total self Hwf) as (cand & self1 & -> & Hlen & Hsame & Hwf1).
    pose proof (same_fit_series _ _ Hsame) as Hser1.
    assert (Hw1 : w self1 = w self) by (symmetry; apply Hsame).
    assert (Hlen1 : length cand = length (t self1)).
    { destruct Hsame as (Ht & _). now rewrite <- Ht. }
    cbv zeta.
    destruct (dist cand (asarray_bool (w self1)) <=? td).
    + simpl. split; [exact Hwf1|]. split; [exact Hser1|].
      split; [lia|]. split; [lia|]. split; [intros _; exact Hw1|lia].
    + pose proof (replace_candidate_total self1 cand Hwf1 Hlen1) as Hrep.
      destruct (replace_mask _ self1) as [[[[] self2] log2]|e].
      * destruct Hrep as (-> & Hwf2 & Hser2 & Hw2).
        specialize (IH (n + 1) (Some (dist cand (asarray_bool (w self1))))
                       self2 Hwf2 ltac:(discriminate)).
        destruct (refine_loop td r (n + 1) _ self2) as [[[res self3] log3]|e].
        -- destruct IH as (Hwf3 & Hser3 & Hn & Hcalls & Hzero & Hpos).
           split; [exact Hwf3|].
           split; [exact (same_series_trans _ _ _ Hser1
                            (same_series_trans _ _ _ Hser2 Hser3))|].
           split; [lia|]. split; [simpl calls; lia|].
           split; [lia|]. intros _.
           destruct (Z.eq_dec (niter res) (n + 1)) as [Heq|Hne].
           ++ rewrite (Hzero Heq), Hw2. apply boolean_asarray_float.
           ++ apply Hpos. lia.
        -- apply (kernel_raises_series _ _ _ Hser1).
           exact (kernel_raises_series _ _ _ Hser2 IH).
      * exact (kernel_raises_series _ _ _ Hser1 Hrep).
Qed.

(** On a well-formed instance, with [0 <= target_d] and
    [0 < maxiter], [refine] either returns or raises what the kernel
    raised on the series and knots of the instance: failing to converge
    is a result, not an exception.  The returned instance is well formed
    on the same series, knots and configuration; the kernel was called
    [niter] times; the mask is the one [refine] started from when
    [niter = 0] and consists of the weights [1.0] and [0.0] otherwise. *)
Theorem refine_only_kernel_raises (td mi : Z) (self : SplineModel F) :
  well_formed self -> 0 <= td -> 0 < mi ->
  match refine td mi self with
  | Ok (res, self', log) => refined_from self res self' log
  | Err e => kernel_raises e self
  end.
Proof.
  intros Hwf Htd Hmi. rewrite refine_eq.
  destruct (Z.leb_spec 0 td) as [_|]; [|lia].
  destruct (Z.ltb_spec 0 mi) as [_|]; [|lia].
  pose proof (refine_loop_total td (Z.to_nat (mi + 1)) 0 None self Hwf
                ltac:(lia)) as Hloop.
  destruct (refine_loop _ _ _ _ _) as [[[res self'] log]|e]; [|exact Hloop].
  destruct Hloop as (Hwf' & Hser & Hn & Hcalls & Hzero & Hpos).
  unfold refined_from. split; [exact Hwf'|]. split; [exact Hser|].
  split; [lia|]. split; [lia|]. split; [exact Hzero|exact Hpos].
Qed.

(** What a successful construction gives: a well-formed instance on
    [t] and [y] with a dirty statistic cache, the mask passed in or else
    the mask of ones, and the configuration [spline_args] with [k] forced
    to 3 and [ext] defaulting to "const"; and it needs [t], [y] and a
    given mask of one length and a non-zero [nknots]. *)
Theorem init_establishes_invariant (t0 y0 : list F) (nknots : Z)
    (ko w0 : option (list F)) (args : gmap string pyval)
    (self : SplineModel F) :
  init t0 y0 nknots ko w0 args = Ok self ->
  well_formed self /\
  t self = t0 /\ y self = y0 /\
  w self = default (ones (length t0)) w0 /\
  _stats_dirty self = true /\ rmad self = None /\
  _kwargs_save self !! "k"%string = Some (PyInt 3) /\
  _kwargs_save self !! "ext"%string
  = Some (default (PyStr "const") (args !! "ext"%string)) /\
  (forall key : string,
      key <> "k"%string -> key <> "ext"%string ->
      _kwargs_save self !! key = args !! key) /\
  length t0 = length y0 /\ length (default (ones (length t0)) w0) = length t0 /\
  nknots <> 0.
Proof.
  rewrite init_eq.
  destruct (Nat.eqb_spec (length t0) (length y0)) as [Hty|]; [|discriminate].
  destruct (Z.eqb_spec nknots 0) as [|Hn]; [discriminate|].
  cbv zeta.
  destruct (match ko with None => _ | Some k => _ end) as [knots0|];
    [|discriminate].
  assert (Hw : match w0 with Some w1 => w1 | None => ones (length t0) end
               = default (ones (length t0)) w0) by now destruct w0.
  rewrite Hw.
  destruct (Nat.eqb_spec (length (default (ones (length t0)) w0)) (length t0))
    as [Hlen|]; [|discriminate].
  destruct (LSQUnivariateSpline _ _ _ _ _) as [spr|]; [|discriminate].
  intros [= <-]. simpl.
  assert (Hk : init_kwargs args !! "k"%string = Some (PyInt 3))
    by apply lookup_insert_eq.
  assert (Hext : init_kwargs args !! "ext"%string
                 = Some (default (PyStr "const") (args !! "ext"%string))).
  { unfold init_kwargs. rewrite lookup_insert_ne by discriminate.
    rewrite lookup_union. destruct (args !! "ext"%string); reflexivity. }
  split.
  { unfold well_formed. simpl.
    split; [congruence|]. split; [exact Hlen|]. split; [reflexivity|].
    split; [discriminate|]. split; [exact Hk|]. rewrite Hext. discriminate. }
  do 5 (split; [reflexivity|]).
  split; [exact Hk|]. split; [exact Hext|].
  split; [|auto].
  intros key Hk' Hext'. unfold init_kwargs.
  rewrite lookup_insert_ne by congruence. rewrite lookup_union.
  rewrite lookup_singleton_ne by congruence.
  now destruct (args !! key).
Qed.

Lemma filter_idem {A} (f : A -> bool) (l : list A) :
  List.filter f (List.filter f l) = List.filter f l.
Proof.
  induction l as [|a l IH]; simpl; [reflexivity|].
  destruct (f a) eqn:Hf; simpl; [rewrite Hf, IH|]; auto.
Qed.

Lemma filter_all {A} (f : A -> bool) (l : list A) :
  (forall a, f a = true) -> List.filter f l = l.
Proof.
  intros Hall. induction l as [|a l IH]; simpl; [reflexivity|].
  now rewrite Hall, IH.
Qed.

Lemma mask_index_all_true (l : list bool) :
  forallb id l = true -> mask_index l = [].
Proof.
  intros Hall. pose proof (mask_index_ascending l) as Hasc.
  destruct (mask_index l) as [|x ivs] eqn:Hm; [reflexivity|exfalso].
  destruct Hasc as (s & e & -> & _ & Hse & _).
  assert (Hin : In [s; e] (mask_index l)) by (rewrite Hm; now left).
  apply mask_index_maximal in Hin. destruct Hin as (_ & Hf & _).
  specialize (Hf s ltac:(lia)).
  rewrite all_true_at_pos in Hf by exact Hall. discriminate.
Qed.

(** The instance that [cure_knots] returns is well formed and is a
    fixed point: curing it again returns it unchanged, so pruning twice
    prunes nothing more.  When the mask has no outlier, no knot is
    pruned. *)
Theorem cure_knots_fixed_point (self new self' : SplineModel F)
    (log : list event) :
  length (w self) = length (t self) ->
  cure_knots self = Ok (new, self', log) ->
  cure_knots new = Ok (new, new, []) /\
  well_formed new /\
  (forallb id (asarray_bool (w self)) = true -> knots new = knots self).
Proof.
  intros Hlen. rewrite (cure_knots_eq _ Hlen). rewrite init_eq.
  destruct (Nat.eqb_spec (length (t self)) (length (y self))) as [Hty|];
    [|discriminate].
  simpl.
  destruct (Nat.eqb_spec (length (w self)) (length (t self))) as [_|];
    [|discriminate].
  destruct (LSQUnivariateSpline _ _ _ _ _) as [spr|] eqn:Hfit; [|discriminate].
  intros [= <- <- <-].
  split; [|split].
  - rewrite cure_knots_eq by exact Hlen. rewrite init_eq. simpl.
    apply Nat.eqb_eq in Hty, Hlen. rewrite Hty, Hlen.
    rewrite init_kwargs_idem.
    assert (Hk : List.filter
                   (kept {| t := t self; y := y self;
                            knots := List.filter (kept self) (knots self);
                            w := w self;
                            _kwargs_save := init_kwargs (_kwargs_save self);
                            _spr := spr; self_pred := map spr (t self);
                            _stats_dirty := true; rmad := None |})
                   (List.filter (kept self) (knots self))
                 = List.filter (kept self) (knots self)).
    { change (kept {| t := t self; y := y self;
                      knots := List.filter (kept self) (knots self);
                      w := w self;
                      _kwargs_save := init_kwargs (_kwargs_save self);
                      _spr := spr; self_pred := map spr (t self);
                      _stats_dirty := true; rmad := None |})
        with (kept self).
      apply filter_idem. }
    rewrite Hk, Hfit. reflexivity.
  - unfold well_formed. simpl.
    split; [congruence|]. split; [exact Hlen|]. split; [reflexivity|].
    split; [discriminate|].
    split; [apply lookup_insert_eq|].
    unfold init_kwargs. rewrite lookup_insert_ne by discriminate.
    rewrite lookup_union.
    destruct (_kwargs_save self !! "ext"%string); discriminate.
  - intros Hall. simpl. apply filter_all. intros knot.
    unfold kept. now rewrite (mask_index_all_true _ Hall).
Qed.

Lemma take_every_nth {A} (gap : nat) (l : list A) :
  forall skip j : nat,
    nth_error (take_every gap skip l) j = nth_error l (skip + j * S gap).
Proof.
  induction l as [|a l IH]; intros skip j.
  - simpl. now rewrite !nth_error_nil.
  - destruct skip as [|k]; simpl.
    + destruct j as [|j]; simpl; [reflexivity|]. apply IH.
    + apply IH.
Qed.

(** The knots that [__init__] derives when no override is given and
    [1 <= nknots <= len(y)]: with [N = len(y) // nknots] and
    [start = max(N // 2, 1)], knot [j] is the sample [t[start + j * N]],
    for every [j] with [start + j * N < len(t)].  The first sample is
    never a knot; when [N = 1], that is [nknots > len(y) / 2], the knots
    are all the samples but the first, the last sample included. *)
Theorem default_knots_by_index (t0 y0 : list F) (nknots : Z)
    (w0 : option (list F)) (args : gmap string pyval) (self : SplineModel F) :
  1 <= nknots <= Z.of_nat (length y0) ->
  init t0 y0 nknots None w0 args = Ok self ->
  let N := Z.to_nat (Z.of_nat (length y0) / nknots) in
  let start := Nat.max (N / 2) 1 in
  (1 <= N)%nat /\ (1 <= start)%nat /\
  (forall j : nat, nth_error (knots self) j = nth_error t0 (start + j * N)) /\
  (forall j : nat,
      (j < length (knots self))%nat <-> (start + j * N < length t0)%nat) /\
  (N = 1%nat -> knots self = tail t0).
Proof.
  intros Hn. rewrite init_eq.
  destruct (length t0 =? length y0)%nat; [|discriminate].
  destruct (Z.eqb_spec nknots 0) as [|_]; [lia|].
  cbv zeta. unfold slice_from_step.
  assert (HN : 1 <= Z.of_nat (length y0) / nknots).
  { apply Z.div_le_lower_bound; lia. }
  destruct (Z.eqb_spec (Z.of_nat (length y0) / nknots) 0) as [|_]; [lia|].
  destruct (Z.ltb_spec 0 (Z.of_nat (length y0) / nknots)) as [_|]; [|lia].
  unfold mbind, result_bind, Py.bind.
  destruct (length _ =? length t0)%nat; [|discriminate].
  destruct (LSQUnivariateSpline _ _ _ _ _) as [spr|]; [|discriminate].
  intros [= <-]. simpl knots.
  set (Nz := Z.of_nat (length y0) / nknots) in *.
  assert (Hgap : S (Z.to_nat (Nz - 1)) = Z.to_nat Nz) by lia.
  assert (Hstart : Z.to_nat (Z.max (Nz / 2) 1)
                   = Nat.max (Z.to_nat Nz / 2) 1).
  { rewrite Z2Nat.inj_max. f_equal.
    rewrite Z2Nat.inj_div by lia. reflexivity. }
  rewrite Hstart.
  assert (Hnth : forall j : nat,
             nth_error (take_every (Z.to_nat (Nz - 1))
                          (Nat.max (Z.to_nat Nz / 2) 1) t0) j
             = nth_error t0 (Nat.max (Z.to_nat Nz / 2) 1 + j * Z.to_nat Nz)).
  { intros j. rewrite take_every_nth. now rewrite Hgap. }
  split; [lia|]. split; [lia|]. split; [exact Hnth|]. split.
  - intros j. rewrite <- !nth_error_Some. now rewrite Hnth.
  - intros H1. apply nth_error_ext. intros j. rewrite Hnth, H1.
    simpl. rewrite Nat.mul_1_r.
    destruct t0 as [|a t1]; simpl; [now rewrite !nth_error_nil|reflexivity].
Qed.

Lemma dist_le_length (x : list bool) :
  forall y0 : list bool, dist x y0 <= Z.of_nat (length x).
Proof.
  induction x as [|a x IH]; intros [|b y0]; simpl length; simpl dist; try lia.
  specialize (IH y0). destruct (xorb a b); lia.
Qed.

(** A tolerance of at least the number of samples makes [refine] a
    single classification: on a well-formed instance it returns
    "Converged" with [niter = 0] without calling the kernel, and the mask
    and the fit stay as they are. *)
Theorem refine_with_full_tolerance (td mi : Z) (self : SplineModel F) :
  well_formed self -> 0 < mi -> Z.of_nat (length (t self)) <= td ->
  exists (d : Z) (self' : SplineModel F),
    refine td mi self
    = Ok (MkFitResult 0 "Converged" 0 d, self', [Classified]) /\
    same_fit self self' /\ 0 <= d <= Z.of_nat (length (t self)).
Proof.
  intros Hwf Hmi Htd. rewrite refine_eq.
  destruct (Z.leb_spec 0 td) as [_|]; [|lia].
  destruct (Z.ltb_spec 0 mi) as [_|]; [|lia].
  replace (Z.to_nat (mi + 1)) with (S (Z.to_nat mi)) by lia.
  rewrite refine_loop_S.
  destruct (classify_total self Hwf) as (cand & self1 & -> & Hlen & Hsame & _).
  cbv zeta.
  pose proof (dist_le_length cand (asarray_bool (w self1))) as Hd.
  pose proof (dist_nonneg cand (asarray_bool (w self1))) as Hd0.
  rewrite Hlen in Hd.
  destruct (Z.leb_spec (dist cand (asarray_bool (w self1))) td) as [_|]; [|lia].
  eexists _, _. split; [reflexivity|]. split; [exact Hsame|lia].
Qed.

Lemma elementwise_boolean (a : list F) :
  boolean_arithmetic -> boolean_mask a ->
  forall b : list F,
    boolean_mask b -> length b = length a ->
    exists c : list F,
      elementwise fmul a b = Ok c /\ boolean_mask c /\
      length c = length a /\
      forall i : nat,
        nth i (asarray_bool c) false
        = nth i (asarray_bool a) false && nth i (asarray_bool b) false.
Proof.
  intros (H11 & H10 & H01 & H00 & Ht1 & Ht0) Ha.
  induction Ha as [|x a Hx Ha IH]; intros b Hb Hlen.
  - destruct b; [|discriminate]. exists [].
    split; [reflexivity|]. split; [constructor|]. split; [reflexivity|].
    intros [|i]; reflexivity.
  - destruct Hb as [|y0 b Hy Hb]; [discriminate|].
    destruct (IH b Hb ltac:(simpl in Hlen; lia)) as (c & Hc & Hbc & Hlc & Hnth).
    exists (fmul x y0 :: c). simpl. rewrite Hc.
    split; [reflexivity|].
    split.
    { constructor; [|exact Hbc].
      destruct Hx as [Hx|Hx], Hy as [Hy|Hy]; rewrite Hx, Hy;
        rewrite ?H11, ?H10, ?H01, ?H00; auto. }
    split; [simpl; lia|].
    intros [|i]; [|apply Hnth]. simpl.
    destruct Hx as [Hx|Hx], Hy as [Hy|Hy]; rewrite Hx, Hy;
      rewrite ?H11, ?H10, ?H01, ?H00, ?Ht1, ?Ht0; reflexivity.
Qed.

(** The consensus of [knot_shift_aggregate] on masks of weights
    [1.0] and [0.0], in an arithmetic where the four products of 0 and 1
    are exact: the product of the base mask and the member masks is again
    such a mask, and a sample is an inlier in it exactly when it is one in
    the base mask and in every member mask. *)
Theorem consensus_is_conjunction (w0 : list F) (ms : list (SplineModel F)) :
  boolean_arithmetic -> boolean_mask w0 ->
  Forall (fun m => boolean_mask (w m) /\ length (w m) = length w0) ms ->
  exists w1 : list F,
    consensus w0 ms = Ok w1 /\ boolean_mask w1 /\
    length w1 = length w0 /\
    forall i : nat,
      nth i (asarray_bool w1) false
      = nth i (asarray_bool w0) false
        && forallb (fun m => nth i (asarray_bool (w m)) false) ms.
Proof.
  intros Harith Hw0 Hms. revert w0 Hw0 Hms.
  induction ms as [|m ms IH]; intros w0 Hw0 Hms.
  - exists w0. repeat split; auto. intros i. simpl. now rewrite andb_true_r.
  - inversion Hms as [|? ? [Hm Hlm] Hrest]; subst.
    destruct (elementwise_boolean w0 Harith Hw0 (w m) Hm Hlm)
      as (c & Hc & Hbc & Hlc & Hnth).
    destruct (IH c Hbc) as (w1 & Hw1 & Hb1 & Hl1 & Hn1).
    { eapply List.Forall_impl; [|exact Hrest].
      intros m' [Hb' Hl']. split; [exact Hb'|lia]. }
    exists w1. simpl. rewrite Hc. split; [exact Hw1|].
    split; [exact Hb1|]. split; [lia|].
    intros i. rewrite Hn1, Hnth. simpl. now rewrite andb_assoc.
Qed.

Lemma refine_keeps_well_formed (td mi : Z) (self self' : SplineModel F)
    (res : FitResult) (log : list event) :
  well_formed self -> refine td mi self = Ok (res, self', log) ->
  well_formed self'.
Proof.
  intros Hwf. rewrite refine_eq.
  destruct (0 <=? td); [|discriminate].
  destruct (Z.ltb_spec 0 mi) as [Hmi|]; [|discriminate].
  pose proof (refine_loop_total td (Z.to_nat (mi + 1)) 0 None self Hwf
                ltac:(lia)) as Hloop.
  intros Hrun. rewrite Hrun in Hloop. apply Hloop.
Qed.

Lemma init_well_formed (t0 y0 : list F) (nknots : Z) (ko w0 : option (list F))
    (args : gmap string pyval) (self : SplineModel F) :
  init t0 y0 nknots ko w0 args = Ok self ->
  well_formed self /\ t self = t0 /\ y self = y0 /\
  _kwargs_save self = init_kwargs args.
Proof.
  rewrite init_eq.
  destruct (Nat.eqb_spec (length t0) (length y0)) as [Hty|]; [|discriminate].
  destruct (nknots =? 0); [discriminate|]. cbv zeta.
  destruct (match ko with None => _ | Some k => _ end) as [knots0|];
    [|discriminate].
  destruct (Nat.eqb_spec (length match w0 with
                                 | Some w1 => w1
                                 | None => ones (length t0)
                                 end) (length t0)) as [Hlen|]; [|discriminate].
  destruct (LSQUnivariateSpline _ _ _ _ _) as [spr|]; [|discriminate].
  intros [= <-]. simpl. split; [|auto].
  unfold well_formed. simpl.
  split; [congruence|]. split; [exact Hlen|]. split; [reflexivity|].
  split; [discriminate|]. split; [apply lookup_insert_eq|].
  unfold init_kwargs. rewrite lookup_insert_ne by discriminate.
  rewrite lookup_union. destruct (args !! "ext"%string); discriminate.
Qed.

(** What a returned aggregate implies, and the edge of a base model
    without knots.  When [knot_shift_aggregate] returns, [d > 0] and
    [0 < p < 1] held, the base model had a knot and at least 23 samples,
    and the result is a well-formed instance on the series of the base
    model with its configuration.  On a base model without interior knots
    (which [cure_knots] can produce) it raises [IndexError]. *)
Theorem aggregate_outcomes (model : SplineModel F) (d : Z) (p : F)
    (args : refine_args) :
  (forall m : SplineModel F,
      knot_shift_aggregate model d p args = Ok m ->
      0 < d /\ flt (of_int 0) p && flt p (of_int 1) = true /\
      knots model <> [] /\ (23 <= length (y model))%nat /\
      well_formed m /\ t m = t model /\ y m = y model /\
      _kwargs_save m = init_kwargs (_kwargs_save model)) /\
  (0 < d -> flt (of_int 0) p && flt p (of_int 1) = true ->
   knots model = [] ->
   knot_shift_aggregate model d p args = Err IndexError).
Proof.
  split.
  - intros m. unfold knot_shift_aggregate, assert.
    unfold mbind, result_bind, Py.bind.
    destruct (Z.ltb_spec 0 d) as [Hd|]; [|discriminate].
    destruct (flt (of_int 0) p && flt p (of_int 1)) eqn:Hp; [|discriminate].
    destruct (shift_scales model d p) as [scales|] eqn:Hsc; [|discriminate].
    destruct (shifted_loop _ _ _ _ []) as [ms1|]; [|discriminate].
    destruct (shifted_loop _ _ _ _ ms1) as [ms2|]; [|discriminate].
    destruct (consensus _ ms2) as [w1|]; [|discriminate].
    destruct (init _ _ _ None _ _) as [model_new|] eqn:Hinit; [|discriminate].
    destruct (cure_knots model_new) as [[[model_agg self'] log]|] eqn:Hcure;
      [|discriminate].
    simpl.
    destruct (refine_with args model_agg) as [[[r m'] log']|] eqn:Hrun;
      [|discriminate].
    simpl. intros [= <-].
    split; [exact Hd|]. split; [reflexivity|].
    split.
    { intros Hnil. unfold shift_scales in Hsc. rewrite Hnil in Hsc.
      discriminate. }
    split.
    { rewrite init_eq in Hinit.
      destruct (length (t model) =? length (y model))%nat; [|discriminate].
      simpl in Hinit.
      destruct (Z.eqb_spec (Z.of_nat (length (y model)) / 23) 0) as [Hz|Hnz].
      - unfold slice_from_step in Hinit. rewrite Hz in Hinit. discriminate.
      - destruct (Nat.le_gt_cases 23 (length (y model))) as [Hle|Hlt];
          [exact Hle|].
        exfalso. apply Hnz. apply Z.div_small. lia. }
    destruct (init_well_formed _ _ _ _ _ _ _ Hinit) as (Hwf & Ht & Hy & Hkw).
    assert (Hlen : length (w model_new) = length (t model_new)) by apply Hwf.
    rewrite (cure_knots_eq _ Hlen) in Hcure.
    destruct (init _ _ _ (Some _) _ _) as [new|] eqn:Hinit2; [|discriminate].
    injection Hcure as <- <- <-.
    destruct (init_well_formed _ _ _ _ _ _ _ Hinit2)
      as (Hwf2 & Ht2 & Hy2 & Hkw2).
    unfold refine_with in Hrun.
    pose proof (refine_keeps_well_formed _ _ _ _ _ _ Hwf2 Hrun) as Hwf3.
    destruct (refine_frame _ _ _ _ _ _ Hrun) as (Ht3 & Hy3 & _ & Hkw3).
    split; [exact Hwf3|].
    split; [congruence|]. split; [congruence|].
    rewrite <- Hkw3, Hkw2, Hkw. apply init_kwargs_idem.
  - intros Hd Hp Hnil. unfold knot_shift_aggregate, assert.
    unfold mbind, result_bind, Py.bind.
    destruct (Z.ltb_spec 0 d) as [_|]; [|lia]. rewrite Hp.
    unfold shift_scales. rewrite Hnil. reflexivity.
Qed.

Lemma current_statistic_same_fit (a b : SplineModel F) :
  same_fit a b -> current_statistic a = current_statistic b.
Proof.
  intros (_ & Hy & _ & Hw & _ & _ & Hp). unfold current_statistic.
  now rewrite Hy, Hw, Hp.
Qed.

Lemma classify_coherent (self self1 : SplineModel F) (cand : list bool)
    (log : list event) :
  cache_coherent self ->
  classify self = Ok (cand, self1, log) ->
  exists r : F,
    current_statistic self = Ok r /\ rmad self1 = Some r /\
    _stats_dirty self1 = false /\ cache_coherent self1.
Proof.
  intros Hco Hcl.
  pose proof (inlier_predicate_frame _ _ _ _ _ _ _ _ Hcl) as (_ & Hsame & Hclean).
  assert (Hr : exists r, current_statistic self = Ok r /\ rmad self1 = Some r).
  { revert Hcl. unfold classify, inlier_predicate, current_statistic.
    unfold_method.
    destruct (_stats_dirty self) eqn:Hdirty.
    - destruct (select (y self) _) as [ysel|]; [|discriminate].
      destruct (select (self_pred self) _) as [psel|]; [|discriminate].
      destruct (elementwise fsub ysel psel) as [residuals|]; [|discriminate].
      simpl.
      destruct (elementwise fsub (y self) _) as [diffs|]; [|discriminate].
      intros [= _ <- _]. simpl. eauto.
    - destruct (elementwise fsub (y self) _) as [diffs|]; [|discriminate].
      destruct (rmad self) as [r0|] eqn:Hr0; [|discriminate].
      intros [= _ <- _].
      destruct (Hco Hdirty) as (r & Hcur & Hrm).
      unfold current_statistic in Hcur. unfold_method.
      exists r. split; [exact Hcur|]. congruence. }
  destruct Hr as (r & Hcur & Hrm).
  exists r. split; [exact Hcur|]. split; [exact Hrm|].
  split; [exact Hclean|]. intros _. exists r.
  rewrite <- (current_statistic_same_fit _ _ Hsame). auto.
Qed.

Lemma commit_dirty (self self2 : SplineModel F) :
  commit self = Ok self2 -> _stats_dirty self2 = true.
Proof.
  intros Hc. destruct (commit_inv _ _ Hc) as (cand & self1 & _ & Hr & _).
  rewrite replace_mask_eq in Hr.
  destruct (length _ =? length _)%nat; [|discriminate].
  destruct (LSQUnivariateSpline _ _ _ _ _); [|discriminate].
  now injection Hr as <-.
Qed.

Lemma advance_coherent (k : nat) :
  forall self self' : SplineModel F,
    cache_coherent self -> advance k self = Ok self' ->
    cache_coherent self' /\ (0 < k -> _stats_dirty self' = true)%nat.
Proof.
  induction k as [|k IH]; intros self self' Hco Hadv.
  - injection Hadv as <-. split; [exact Hco|lia].
  - rewrite advance_snoc in Hadv.
    destruct (advance k self) as [prev|]; [|discriminate].
    apply commit_dirty in Hadv.
    split; [|auto]. intros Hclean. congruence.
Qed.

(** The cached residual statistic is never stale.  Call an instance
    coherent when a clean cache holds the median absolute residual of the
    current inliers under the current fit.  Every classification on a
    coherent instance divides by that statistic and leaves a coherent
    instance with a clean cache; and [refine] on a coherent instance
    leaves a coherent one, with a clean cache exactly when it
    converged. *)
Theorem statistic_cache_coherent (self : SplineModel F) :
  cache_coherent self ->
  (forall (cand : list bool) (self1 : SplineModel F) (log : list event),
      classify self = Ok (cand, self1, log) ->
      exists r : F,
        current_statistic self = Ok r /\ rmad self1 = Some r /\
        _stats_dirty self1 = false /\ cache_coherent self1) /\
  (forall (td mi : Z) (res : FitResult) (self' : SplineModel F)
          (log : list event),
      refine td mi self = Ok (res, self', log) ->
      cache_coherent self' /\
      (_stats_dirty self' = false <-> status res = 0)).
Proof.
  intros Hco. split; [intros cand self1 log; apply classify_coherent, Hco|].
  intros td mi res self' log. rewrite refine_eq.
  destruct (0 <=? td); [|discriminate].
  destruct (Z.ltb_spec 0 mi) as [Hmi|]; [|discriminate].
  intros Hrun.
  destruct (refine_loop_inv _ _ _ _ _ _ _ _ Hrun)
    as [(k & prev & cand & _ & -> & Hadv & _ & Hcl & _)
       |(dl & -> & Hadv & _)].
  - destruct (advance_coherent _ _ _ Hco Hadv) as [Hprev _].
    destruct (classify_coherent _ _ _ _ Hprev Hcl) as (r & _ & _ & Hclean & Hco').
    split; [exact Hco'|]. simpl. split; auto.
  - destruct (advance_coherent _ _ _ Hco Hadv) as [Hco' Hdirty].
    split; [exact Hco'|]. simpl. rewrite Hdirty by lia.
    split; discriminate.
Qed.

Lemma boolean_ones (n : nat) : boolean_mask (ones n).
Proof.
  unfold boolean_mask, ones. apply List.Forall_forall.
  intros x Hx. apply repeat_spec in Hx. auto.
Qed.

(** The members of the ensemble.  Each loop of
    [knot_shift_aggregate] appends one instance per index; every one is
    well formed on the series of the base model, and its mask after
    [refine] has the length of the series and consists of the weights
    [1.0] and [0.0], whatever the mask of the base model is. *)
Theorem members_have_boolean_masks (model : SplineModel F)
    (args : refine_args) (scale : F) (indices : list Z)
    (acc ms : list (SplineModel F)) :
  shifted_loop model args scale indices acc = Ok ms ->
  exists members : list (SplineModel F),
    ms = acc ++ members /\ length members = length indices /\
    Forall (fun m : SplineModel F =>
              well_formed m /\ t m = t model /\ y m = y model /\
              boolean_mask (w m) /\ length (w m) = length (t model))
           members.
Proof.
  revert acc ms. induction indices as [|i indices IH]; intros acc ms Hloop.
  - injection Hloop as <-. exists []. rewrite app_nil_r. auto.
  - simpl in Hloop. unfold shifted_model, shifted_init, refine_with in Hloop.
    unfold mbind, result_bind, Py.bind in Hloop.
    destruct (init _ _ _ _ _ _) as [m0|] eqn:Hinit; [|discriminate].
    destruct (refine _ _ m0) as [[[r m] log]|] eqn:Hrun; [|discriminate].
    simpl in Hloop.
    destruct (IH _ _ Hloop) as (members & -> & Hlen & Hall).
    exists (m :: members). split; [now rewrite <- app_assoc|].
    split; [simpl; lia|]. constructor; [|exact Hall].
    destruct (init_well_formed _ _ _ _ _ _ _ Hinit) as (Hwf0 & Ht0 & Hy0 & _).
    assert (Hw0 : w m0 = ones (length (t model))).
    { revert Hinit. rewrite init_eq.
      destruct (length _ =? length _)%nat; [|discriminate]. simpl.
      destruct (length _ =? length _)%nat; [|discriminate].
      destruct (LSQUnivariateSpline _ _ _ _ _); [|discriminate].
      now intros [= <-]. }
    rewrite refine_eq in Hrun.
    destruct (0 <=? _); [|discriminate].
    destruct (Z.ltb_spec 0 (default 50 (arg_maxiter args))) as [Hmi|];
      [|discriminate].
    pose proof (refine_loop_total (default 1 (arg_target_d args))
                  (Z.to_nat (default 50 (arg_maxiter args) + 1)) 0 None m0
                  Hwf0 ltac:(lia)) as Hloop'.
    rewrite Hrun in Hloop'.
    destruct Hloop' as (Hwf & (Ht & Hy & _) & Hn & _ & Hzero & Hpos).
    split; [exact Hwf|]. split; [congruence|]. split; [congruence|].
    split.
    + destruct (Z.eq_dec (niter r) 0) as [Hz|Hnz].
      * rewrite (Hzero Hz), Hw0. apply boolean_ones.
      * apply Hpos. lia.
    + destruct Hwf as (_ & Hlw & _). rewrite Hlw. congruence.
Qed.

End InvariantFacts.

Lemma runs_app_true (l1 rest : list bool) :
  forall (k : nat) (o : option nat),
    runs k o (l1 ++ true :: rest)
    = runs k o (l1 ++ [true]) ++ runs (k + length l1 + 1) None rest.
Proof.
  induction l1 as [|b l1 IH]; intros k o.
  - simpl. replace (k + 0 + 1)%nat with (S k) by lia. now destruct o.
  - simpl. replace (k + S (length l1) + 1)%nat with (S k + length l1 + 1)%nat
      by lia.
    destruct b, o as [s|]; simpl; now rewrite IH.
Qed.

Lemma runs_shift (l : list bool) :
  forall (k j : nat) (o : option nat),
    runs (k + j) (option_map (Nat.add k) o) l
    = map (map (Nat.add k)) (runs j o l).
Proof.
  induction l as [|b l IH]; intros k j o; [reflexivity|].
  destruct b, o as [s|]; simpl.
  - f_equal. rewrite <- Nat.add_succ_r. exact (IH k (S j) None).
  - rewrite <- Nat.add_succ_r. exact (IH k (S j) None).
  - rewrite <- Nat.add_succ_r. exact (IH k (S j) (Some s)).
  - rewrite <- Nat.add_succ_r. exact (IH k (S j) (Some j)).
Qed.

(** A [true] entry separates the scan: the intervals of
    [l1 ++ [true] ++ l2] are those of [l1] followed by those of [l2]
    moved by [len(l1) + 1]. *)
Theorem mask_index_app_true (l1 l2 : list bool) :
  mask_index (l1 ++ true :: l2)
  = mask_index l1
    ++ map (map (Nat.add (length l1 + 1))) (mask_index l2).
Proof.
  rewrite !mask_index_runs. rewrite <- app_assoc. simpl app.
  rewrite runs_app_true. f_equal.
  replace (0 + length l1 + 1)%nat with (length l1 + 1 + 0)%nat by lia.
  exact (runs_shift (l2 ++ [true]) (length l1 + 1) 0 None).
Qed.

(** ** Concrete runs of the further properties *)

Section MoreRuns.
Import Binary64 Examples Ensemble.

Ltac boolean_mask_by_computation :=
  unfold boolean_mask; vm_compute;
  repeat (constructor; [first [left; reflexivity | right; reflexivity]|]);
  constructor.

Ltac well_formed_by_computation :=
  unfold well_formed;
  repeat split; vm_compute; first [reflexivity | discriminate].

Lemma fresh_well_formed : well_formed fresh.
Proof. well_formed_by_computation. Qed.

Lemma binary64_boolean_arithmetic : @boolean_arithmetic float binary64.
Proof. repeat split; vm_compute; reflexivity. Qed.

(** [fresh.refine(0, 50)]: two kernel calls, a mask of weights 0 and 1. *)
Lemma refine_only_kernel_raises_witness :
  refined_from fresh (MkFitResult 0 "Converged" 2 0) refined
    [Classified; Fitted; Classified; Fitted; Classified].
Proof.
  pose proof (refine_only_kernel_raises 0 50 fresh fresh_well_formed
                ltac:(lia) ltac:(lia)) as Hx.
  assert (Hrun : refine 0 50 fresh
                 = Ok (MkFitResult 0 "Converged" 2 0, refined,
                       [Classified; Fitted; Classified; Fitted; Classified]))
    by (vm_compute; reflexivity).
  rewrite Hrun in Hx. exact Hx.
Defined.

(** [SplineModel(ts, ys, nknots=2)]. *)
Lemma init_establishes_invariant_witness :
  well_formed fresh /\
  w fresh = ones 10 /\
  _kwargs_save fresh !! "ext"%string = Some (PyStr "const") /\
  _kwargs_save fresh !! "bbox"%string = None.
Proof.
  assert (Hinit : init ts ys 2 None None ∅ = Ok fresh)
    by (vm_compute; reflexivity).
  destruct (init_establishes_invariant ts ys 2 None None ∅ fresh Hinit)
    as (Hwf & _ & _ & Hw & _ & _ & _ & Hext & Hother & _).
  split; [exact Hwf|]. split; [exact Hw|]. split; [exact Hext|].
  rewrite Hother by discriminate. reflexivity.
Defined.

(** Curing [cured] again returns it. *)
Lemma cure_knots_fixed_point_witness :
  cure_knots cured = Ok (cured, cured, []) /\ well_formed cured.
Proof.
  destruct (cure_knots_fixed_point masked cured masked [])
    as (Hfix & Hwf & _); [vm_compute; reflexivity ..|].
  split; [exact Hfix|exact Hwf].
Defined.

(** Ten samples, [nknots = 2]: [N = 5], [start = 2], knots [t[2]] and
    [t[7]], and no third one since [2 + 2 * 5] is past the end. *)
Lemma default_knots_by_index_witness :
  nth_error (knots fresh) 0 = Some 2%float /\
  nth_error (knots fresh) 1 = Some 7%float /\
  length (knots fresh) = 2%nat.
Proof.
  assert (Hinit : init ts ys 2 None None ∅ = Ok fresh)
    by (vm_compute; reflexivity).
  destruct (default_knots_by_index ts ys 2 None ∅ fresh
              ltac:(vm_compute; split; discriminate) Hinit)
    as (_ & _ & Hnth & Hlen & _).
  split; [rewrite Hnth; reflexivity|].
  split; [rewrite Hnth; reflexivity|].
  apply Nat.le_antisymm.
  - destruct (Nat.le_gt_cases (length (knots fresh)) 2) as [Hle|Hgt];
      [exact Hle|]. exfalso.
    assert (Hbad : (12 < 10)%nat) by exact (proj1 (Hlen 2%nat) Hgt). lia.
  - assert (Hin : (7 < 10)%nat) by lia. exact (proj2 (Hlen 1%nat) Hin).
Defined.

(** [fresh.refine(10)]: ten samples, so one classification and no fit. *)
Lemma refine_with_full_tolerance_witness :
  exists d : Z,
    refine 10 50 fresh
    = Ok (MkFitResult 0 "Converged" 0 d, tolerant, [Classified]) /\
    w tolerant = w fresh.
Proof.
  destruct (refine_with_full_tolerance 10 50 fresh fresh_well_formed
              ltac:(lia) ltac:(vm_compute; discriminate))
    as (d & self' & Hrun & Hsame & _).
  exists d.
  assert (Hstate : tolerant = self') by (unfold tolerant; now rewrite Hrun).
  rewrite Hstate. split; [exact Hrun|]. symmetry. apply Hsame.
Defined.

(** The consensus of [knot_shift_aggregate(refined, 1, 0.5)]: the base
    mask times the masks of the two members. *)
Lemma consensus_is_conjunction_witness :
  exists w1 : list float,
    consensus (w refined) [member_left; member_right] = Ok w1 /\
    boolean_mask w1 /\ length w1 = 10%nat /\
    nth 8 (asarray_bool w1) false = false.
Proof.
  destruct (consensus_is_conjunction (w refined) [member_left; member_right]
              binary64_boolean_arithmetic)
    as (w1 & Hw1 & Hb1 & Hl1 & Hnth).
  - boolean_mask_by_computation.
  - constructor; [split; [boolean_mask_by_computation|reflexivity]|].
    constructor; [split; [boolean_mask_by_computation|reflexivity]|].
    constructor.
  - exists w1. split; [exact Hw1|]. split; [exact Hb1|].
    split; [exact Hl1|]. rewrite Hnth. reflexivity.
Defined.

(** [knot_shift_aggregate(long_refined, 1, 0.5)] returns: the base model
    has 47 samples and the knots [11; 34]. *)
Lemma aggregate_outcomes_witness :
  well_formed long_aggregate /\ t long_aggregate = t long_refined /\
  y long_aggregate = y long_refined.
Proof.
  assert (Hrun : knot_shift_aggregate long_refined 1 0.5%float no_args
                 = Ok long_aggregate) by (vm_compute; reflexivity).
  destruct (proj1 (aggregate_outcomes long_refined 1 0.5%float no_args)
              long_aggregate Hrun)
    as (_ & _ & _ & _ & Hwf & Ht & Hy & _).
  split; [exact Hwf|]. split; [exact Ht|exact Hy].
Defined.

Lemma refined_coherent : cache_coherent refined.
Proof.
  intros _. exists 0.5%float. split; vm_compute; reflexivity.
Qed.

(** [refined] holds the statistic 0.5 in a clean cache; classifying again
    divides by it, and a second [refine(0)] leaves the cache clean. *)
Lemma statistic_cache_coherent_witness :
  (exists r : float,
      current_statistic refined = Ok r /\
      rmad (state_of (classify refined)) = Some r) /\
  _stats_dirty (state_of (refine 0 50 refined)) = false.
Proof.
  destruct (statistic_cache_coherent refined refined_coherent)
    as [Hclassify Hrefine].
  split.
  - destruct (classify refined) as [[[cand self1] log]|e] eqn:Hcl;
      [|vm_compute in Hcl; discriminate].
    destruct (Hclassify cand self1 log eq_refl) as (r & Hcur & Hrm & _).
    exists r. split; [exact Hcur|exact Hrm].
  - destruct (refine 0 50 refined) as [[[res self'] log]|e] eqn:Hrun;
      [|vm_compute in Hrun; discriminate].
    destruct (Hrefine 0 50 res self' log Hrun) as [_ Hiff].
    apply Hiff. vm_compute in Hrun. now injection Hrun as <- _ _.
Defined.

(** The left loop of [knot_shift_aggregate(refined, 1, 0.5)]: the base
    model has two masked samples, the member none. *)
Lemma members_have_boolean_masks_witness :
  boolean_mask (w member_left) /\ length (w member_left) = length (t refined).
Proof.
  assert (Hloop : shifted_loop refined no_args 1%float (range (-1) 0) []
                  = Ok [member_left]) by (vm_compute; reflexivity).
  destruct (members_have_boolean_masks refined no_args 1%float (range (-1) 0)
              [] [member_left] Hloop)
    as (members & Hms & _ & Hall).
  change ([] ++ members) with members in Hms. rewrite <- Hms in Hall.
  destruct (List.Forall_inv Hall) as (_ & _ & _ & Hb & Hl).
  split; [exact Hb|exact Hl].
Defined.

End MoreRuns.
